(** * PyBot: the safe arithmetic evaluator, the replies and the command loop

    A shallow embedding of [src/main.py].  The first part holds
    [safe_eval_expr] with its inner [_eval], the table
    [_ALLOWED_OPERATORS], and [chatbot_response], whose replies outside
    the calculator are named by their rule.  The second part holds
    [typing_print], [show_help], [save_history], [load_history],
    [run_quiz] and the loop of [main], over a state that keeps the
    history, the lines still to be read and the file operations.

    The program leans on the Python runtime: [str.strip], [str.lower],
    [str.replace], the [re] module, [ast.parse] and the functions of the
    [operator] module.  Those are modelled here as far as the program uses
    them:

    - a string is a sequence of code points below 256;
    - [ast.parse (mode="eval")] is modelled on the expression grammar from
      bitwise-or downwards (binary and unary operators, power, calls,
      attribute access, names, numbers, string literals, parentheses).  A
      construct above that level (comparison, boolean operator, conditional,
      lambda, tuple, subscript, ...) is reported as a syntax error, where
      CPython may instead build a node that [_eval] refuses: either way the
      call raises and returns no number;
    - integers are exact ([Z]); floats are IEEE binary64 ([PrimFloat]);
      the two places where CPython asks the C library ([pow] on floats and
      complex power) and the [repr] of a float are fields of a [runtime]
      record;
    - resource limits (recursion depth, memory, the digit limit of integer
      to string conversion) are not modelled; where CPython versions
      differ, the model follows 3.9 to 3.12. *)

From Stdlib Require Import ZArith NArith List String Ascii Bool Lia.
From Stdlib Require Import DecimalString.
From Stdlib Require DecimalPos.
From Stdlib Require Import Floats.
Import ListNotations.
Local Open Scope string_scope.

(** ** Strings as Python sees them *)

Module PyStr.

Definition code (c : ascii) : N := N_of_ascii c.

Definition between (lo hi : N) (c : ascii) : bool :=
  (lo <=? code c)%N && (code c <=? hi)%N.

Definition is_char (n : N) (c : ascii) : bool := (code c =? n)%N.

(** [str.isspace] on code points below 256; [str.strip] and the regular
    expression class [\s] use the same set. *)
Definition isspace (c : ascii) : bool :=
  between 9 13 c || between 28 32 c || is_char 133 c || is_char 160 c.

Definition isdigit (c : ascii) : bool := between 48 57 c.

Definition isupper_ascii (c : ascii) : bool := between 65 90 c.
Definition islower_ascii (c : ascii) : bool := between 97 122 c.

(** Letters of the Latin-1 supplement. *)
Definition isalpha_latin1 (c : ascii) : bool :=
  is_char 170 c || is_char 181 c || is_char 186 c
  || between 192 214 c || between 216 246 c || between 248 255 c.

Definition isalpha (c : ascii) : bool :=
  isupper_ascii c || islower_ascii c || isalpha_latin1 c.

(** [str.isalnum]: letters, decimal digits, and the numeric characters of
    Latin-1 (superscript digits and vulgar fractions). *)
Definition isalnum (c : ascii) : bool :=
  isalpha c || isdigit c
  || is_char 178 c || is_char 179 c || is_char 185 c || between 188 190 c.

(** The class [\w] of [re] on [str] patterns. *)
Definition is_word (c : ascii) : bool := isalnum c || is_char 95 c.

Definition lower_char (c : ascii) : ascii :=
  if isupper_ascii c || between 192 214 c || between 216 222 c
  then ascii_of_N (code c + 32)
  else c.

Fixpoint lower (s : string) : string :=
  match s with
  | EmptyString => EmptyString
  | String c r => String (lower_char c) (lower r)
  end.

Fixpoint lstrip (s : string) : string :=
  match s with
  | EmptyString => EmptyString
  | String c r => if isspace c then lstrip r else s
  end.

(** [rstrip] keeps a character when something that is not a space follows
    it or it is not a space itself. *)
Fixpoint rstrip (s : string) : string :=
  match s with
  | EmptyString => EmptyString
  | String c r =>
      match rstrip r with
      | EmptyString => if isspace c then EmptyString else String c EmptyString
      | r' => String c r'
      end
  end.

Definition strip (s : string) : string := rstrip (lstrip s).

(** [s.replace("^", "**")] *)
Fixpoint replace_caret (s : string) : string :=
  match s with
  | EmptyString => EmptyString
  | String c r =>
      if is_char 94 c then String "*" (String "*" (replace_caret r))
      else String c (replace_caret r)
  end.

(** [s.startswith(p)] *)
Fixpoint startswith (p s : string) : bool :=
  match p, s with
  | EmptyString, _ => true
  | String a p', String b s' => Ascii.eqb a b && startswith p' s'
  | String _ _, EmptyString => false
  end.

(** [p in s] *)
Fixpoint contains (p s : string) : bool :=
  startswith p s ||
  match s with
  | EmptyString => false
  | String _ r => contains p r
  end.

Fixpoint drop (n : nat) (s : string) : string :=
  match n, s with
  | O, _ => s
  | S n', String _ r => drop n' r
  | S _, EmptyString => EmptyString
  end.

Definition head_is (p : ascii -> bool) (s : string) : bool :=
  match s with
  | String c _ => p c
  | EmptyString => false
  end.

(** [re.search(r"\b(w1|w2|...)\b", s)] as a truth value.  [prev] says
    whether the character before the current position is a word
    character.  A match at a position needs a word boundary before the
    alternative and after it; every alternative of the program starts and
    ends with a letter, so the boundary before holds when [prev] is false
    and the one after when no word character follows. *)
Definition word_at (w s : string) : bool :=
  startswith w s && negb (head_is is_word (drop (length w) s)).

Fixpoint search_words_from (prev : bool) (ws : list string) (s : string) : bool :=
  (negb prev && existsb (fun w => word_at w s) ws) ||
  match s with
  | EmptyString => false
  | String c r => search_words_from (is_word c) ws r
  end.

Definition search_words (ws : list string) (s : string) : bool :=
  search_words_from false ws s.

End PyStr.

(** ** Binary64 helpers: what CPython computes exactly *)

Module F64.

Local Open Scope Z_scope.

(** Round [m * 2^e] to the nearest binary64, ties to even. *)
Definition round_Z (m e : Z) : float :=
  SF2Prim (binary_normalize prec emax m e false).

(** Correctly rounded [n / d] for [0 <= n] and [0 < d]: the quotient is
    taken with 64 bits to spare and a sticky bit for the remainder. *)
Definition round_quot (n d : Z) : float :=
  let s := Z.log2_up d + 64 in
  let q := Z.shiftl n s / d in
  let r := Z.shiftl n s mod d in
  round_Z (2 * q + (if r =? 0 then 0 else 1)) (- s - 1).

(** [PyLong_AsDouble]: [None] stands for OverflowError. *)
Definition of_Z (z : Z) : option float :=
  let f := round_Z z 0 in
  if is_infinity f then None else Some f.

(** The value of a decimal literal with digits [m] and decimal exponent
    [e10]; CPython's [strtod] is correctly rounded and saturates to
    infinity or zero. *)
Definition of_decimal (m e10 : Z) : float :=
  if 0 <=? e10 then round_Z (m * 10 ^ e10) 0
  else round_quot m (10 ^ (- e10)).

(** The exact integer and exponent of a finite float, with its sign. *)
Definition decompose (f : float) : option (Z * Z) :=
  match Prim2SF f with
  | S754_zero _ => Some (0, 0)
  | S754_finite s m e => Some (if s then Z.neg m else Z.pos m, e)
  | _ => None
  end.

Definition copysign (x y : float) : float :=
  if Bool.eqb (get_sign x) (get_sign y) then x else (- x)%float.

(** C's [floor]. *)
Definition floor (f : float) : float :=
  match Prim2SF f with
  | S754_finite s m e =>
      if 0 <=? e then f
      else
        let z := Z.shiftr (if s then Z.neg m else Z.pos m) (- e) in
        if z =? 0 then (if s then neg_zero else zero) else round_Z z 0
  | _ => f
  end.

(** C's [fmod]: exact, with the sign of the dividend. *)
Definition fmod (x y : float) : float :=
  if is_nan x || is_nan y || is_infinity x || is_zero y then nan
  else if is_infinity y then x
  else
    match decompose (abs x), decompose (abs y) with
    | Some (mx, ex), Some (my, ey) =>
        let e := Z.min ex ey in
        let r := (Z.shiftl mx (ex - e)) mod (Z.shiftl my (ey - e)) in
        copysign (round_Z r e) x
    | _, _ => nan
    end.

(** [DOUBLE_IS_ODD_INTEGER] of floatobject.c *)
Definition is_odd_integer (x : float) : bool :=
  (fmod (abs x) two =? one)%float.

End F64.

(** ** Python numbers and the functions of the [operator] module *)

Module PyNum.

(** The numbers an evaluation can meet: [int], [bool] (a subclass of
    [int]), [float], and [complex], which [pow] can produce. *)
Inductive value : Type :=
| VInt (z : Z)
| VBool (b : bool)
| VFloat (f : float)
| VComplex (re im : float).

(** The exceptions that reach the caller of [safe_eval_expr], each with
    the text of [str(e)].  The texts of the exceptions the runtime raises
    follow CPython 3.12; no statement below depends on their wording. *)
Inductive exn : Type :=
| ValueError (msg : string)
| ZeroDivisionError (msg : string)
| OverflowError (msg : string)
| TypeError (msg : string)
| KeyError (msg : string).

Definition exn_str (e : exn) : string :=
  match e with
  | ValueError m | ZeroDivisionError m | OverflowError m | TypeError m
  | KeyError m => m
  end.

Inductive result (A : Type) : Type :=
| Ok (a : A)
| Raise (e : exn).
Arguments Ok {A} a.
Arguments Raise {A} e.

Definition bind {A B : Type} (r : result A) (k : A -> result B) : result B :=
  match r with
  | Ok a => k a
  | Raise e => Raise e
  end.

Notation "x <- r ;; k" := (bind r (fun x => k))
  (at level 61, r at next level, right associativity).

(** The C library functions CPython calls for powers, and
    [PyOS_double_to_string(x, 'r', 0, 0, NULL)], the shortest decimal text
    that reads back as [x]. *)
Record runtime : Type := {
  libm_pow : float -> float -> float;
  libm_hypot : float -> float -> float;
  libm_atan2 : float -> float -> float;
  libm_exp : float -> float;
  libm_log : float -> float;
  libm_cos : float -> float;
  libm_sin : float -> float;
  double_to_string_r : float -> string
}.

Definition type_name (v : value) : string :=
  match v with
  | VInt _ => "int"
  | VBool _ => "bool"
  | VFloat _ => "float"
  | VComplex _ _ => "complex"
  end.

Definition is_complex (v : value) : bool :=
  match v with VComplex _ _ => true | _ => false end.

Definition is_float (v : value) : bool :=
  match v with VFloat _ => true | _ => false end.

(** The integer behind an [int] or a [bool]. *)
Definition int_of (v : value) : Z :=
  match v with
  | VInt z => z
  | VBool true => 1%Z
  | _ => 0%Z
  end.

Definition float_of_int (z : Z) : result float :=
  match F64.of_Z z with
  | Some f => Ok f
  | None => Raise (OverflowError "int too large to convert to float")
  end.

Definition to_float (v : value) : result float :=
  match v with
  | VFloat f => Ok f
  | VComplex re _ => Ok re
  | _ => float_of_int (int_of v)
  end.

Definition to_complex (v : value) : result (float * float) :=
  match v with
  | VComplex re im => Ok (re, im)
  | _ => f <- to_float v ;; Ok (f, zero)
  end.

(** How a binary operator picks its implementation from the operand
    types: complex if either is complex, else float if either is float,
    else int.  The left operand is converted first. *)
Definition dispatch
    (on_int : Z -> Z -> result value)
    (on_float : float -> float -> result value)
    (on_complex : float * float -> float * float -> result value)
    (a b : value) : result value :=
  if is_complex a || is_complex b then
    x <- to_complex a ;; y <- to_complex b ;; on_complex x y
  else if is_float a || is_float b then
    x <- to_float a ;; y <- to_float b ;; on_float x y
  else on_int (int_of a) (int_of b).

Definition unsupported (sym : string) (a b : value) : result value :=
  Raise (TypeError ("unsupported operand type(s) for " ++ sym ++ ": '"
                    ++ type_name a ++ "' and '" ++ type_name b ++ "'")).

(** *** Addition, subtraction, multiplication *)

Definition c_sum (a b : float * float) : float * float :=
  ((fst a + fst b)%float, (snd a + snd b)%float).

Definition c_diff (a b : float * float) : float * float :=
  ((fst a - fst b)%float, (snd a - snd b)%float).

Definition c_prod (a b : float * float) : float * float :=
  ((fst a * fst b - snd a * snd b)%float,
   (fst a * snd b + snd a * fst b)%float).

Definition of_complex (c : float * float) : value := VComplex (fst c) (snd c).

Definition add (a b : value) : result value :=
  dispatch (fun x y => Ok (VInt (x + y)))
           (fun x y => Ok (VFloat (x + y)))
           (fun x y => Ok (of_complex (c_sum x y))) a b.

Definition sub (a b : value) : result value :=
  dispatch (fun x y => Ok (VInt (x - y)))
           (fun x y => Ok (VFloat (x - y)))
           (fun x y => Ok (of_complex (c_diff x y))) a b.

Definition mul (a b : value) : result value :=
  dispatch (fun x y => Ok (VInt (x * y)))
           (fun x y => Ok (VFloat (x * y)))
           (fun x y => Ok (of_complex (c_prod x y))) a b.

(** *** True division *)

(** [long_true_divide]: the correctly rounded quotient of two integers. *)
Definition int_truediv (a b : Z) : result value :=
  if (b =? 0)%Z then Raise (ZeroDivisionError "division by zero")
  else
    let q := F64.round_quot (Z.abs a) (Z.abs b) in
    if is_infinity q
    then Raise (OverflowError "integer division result too large for a float")
    else Ok (VFloat (if xorb (a <? 0)%Z (b <? 0)%Z then - q else q)%float).

Definition float_truediv (a b : float) : result value :=
  if is_zero b then Raise (ZeroDivisionError "float division by zero")
  else Ok (VFloat (a / b)).

(** [_Py_c_quot]; [None] is the C function's [errno = EDOM]. *)
Definition c_quot (a b : float * float) : option (float * float) :=
  let (ar, ai) := a in
  let (br, bi) := b in
  let abs_breal := if (br <? 0)%float then (- br)%float else br in
  let abs_bimag := if (bi <? 0)%float then (- bi)%float else bi in
  if (abs_bimag <=? abs_breal)%float then
    if is_zero abs_breal then None
    else
      let ratio := (bi / br)%float in
      let denom := (br + bi * ratio)%float in
      Some (((ar + ai * ratio) / denom)%float, ((ai - ar * ratio) / denom)%float)
  else if (abs_breal <=? abs_bimag)%float then
    let ratio := (br / bi)%float in
    let denom := (br * ratio + bi)%float in
    Some (((ar * ratio + ai) / denom)%float, ((ai * ratio - ar) / denom)%float)
  else Some (nan, nan).

Definition complex_truediv (a b : float * float) : result value :=
  match c_quot a b with
  | Some q => Ok (of_complex q)
  | None => Raise (ZeroDivisionError "complex division by zero")
  end.

Definition truediv (a b : value) : result value :=
  dispatch int_truediv float_truediv complex_truediv a b.

(** *** Floor division and modulo *)

Definition int_floordiv (a b : Z) : result value :=
  if (b =? 0)%Z
  then Raise (ZeroDivisionError "integer division or modulo by zero")
  else Ok (VInt (a / b)).

Definition int_mod (a b : Z) : result value :=
  if (b =? 0)%Z then Raise (ZeroDivisionError "integer modulo by zero")
  else Ok (VInt (a mod b)).

(** [float_rem] of floatobject.c *)
Definition float_mod (vx wx : float) : result value :=
  if is_zero wx then Raise (ZeroDivisionError "float modulo by zero")
  else
    let m := F64.fmod vx wx in
    Ok (VFloat
          (if is_zero m then F64.copysign zero wx
           else if negb (Bool.eqb (wx <? 0)%float (m <? 0)%float)
                then (m + wx)%float else m)).

(** [float_floor_div] of floatobject.c, through [_float_div_mod] *)
Definition float_floordiv (vx wx : float) : result value :=
  if is_zero wx then Raise (ZeroDivisionError "float floor division by zero")
  else
    let m := F64.fmod vx wx in
    let d := ((vx - m) / wx)%float in
    let d :=
      if negb (is_zero m) && negb (Bool.eqb (wx <? 0)%float (m <? 0)%float)
      then (d - one)%float else d in
    Ok (VFloat
          (if is_zero d then F64.copysign zero (vx / wx)%float
           else
             let fd := F64.floor d in
             if (0.5 <? d - fd)%float then (fd + one)%float else fd)).

(** [complex] has no floor division and no modulo: the operands are not
    converted, the call raises TypeError. *)
Definition floordiv (a b : value) : result value :=
  if is_complex a || is_complex b then unsupported "//" a b
  else dispatch int_floordiv float_floordiv (fun _ _ => unsupported "//" a b) a b.

Definition mod_ (a b : value) : result value :=
  if is_complex a || is_complex b then unsupported "%" a b
  else dispatch int_mod float_mod (fun _ _ => unsupported "%" a b) a b.

(** *** Power *)

Section Power.

Variable rt : runtime.

(** [c_powu]: binary exponentiation, lowest bit first. *)
Fixpoint c_powu (r p : float * float) (n : positive) : float * float :=
  match n with
  | xH => c_prod r p
  | xO n' => c_powu r (c_prod p p) n'
  | xI n' => c_powu (c_prod r p) (c_prod p p) n'
  end.

Definition c_1 : float * float := (one, zero).

(** [c_powi]; [None] is [errno = EDOM]. *)
Definition c_powi (x : float * float) (n : Z) : option (float * float) :=
  match n with
  | Zpos p => Some (c_powu c_1 x p)
  | Z0 => c_quot c_1 c_1
  | Zneg p => c_quot c_1 (c_powu c_1 x p)
  end.

(** [_Py_c_pow]; [None] is [errno = EDOM]. *)
Definition c_pow (a b : float * float) : option (float * float) :=
  let (ar, ai) := a in
  let (br, bi) := b in
  if is_zero br && is_zero bi then Some (one, zero)
  else if is_zero ar && is_zero ai then
    if negb (is_zero bi) || (br <? 0)%float then None else Some (zero, zero)
  else
    let vabs := libm_hypot rt ar ai in
    let len := libm_pow rt vabs br in
    let at_ := libm_atan2 rt ai ar in
    let phase := (at_ * br)%float in
    let len := if is_zero bi then len else (len / libm_exp rt (at_ * bi))%float in
    let phase := if is_zero bi then phase else (phase + bi * libm_log rt vabs)%float in
    Some ((len * libm_cos rt phase)%float, (len * libm_sin rt phase)%float).

(** The integer value of a float that is integral. *)
Definition integral_part (f : float) : Z :=
  match F64.decompose f with
  | Some (m, e) => if (0 <=? e)%Z then Z.shiftl m e else - Z.shiftr (- m) (- e)
  | None => 0
  end.

(** [complex_pow] of complexobject.c *)
Definition complex_pow (a b : float * float) : result value :=
  let p :=
    if is_zero (snd b) && (fst b =? F64.floor (fst b))%float
       && (abs (fst b) <=? 100)%float
    then c_powi a (integral_part (fst b))
    else c_pow a b in
  match p with
  | None => Raise (ZeroDivisionError "zero to a negative or complex power")
  | Some (re, im) =>
      if is_infinity re || is_infinity im
      then Raise (OverflowError "complex exponentiation")
      else Ok (VComplex re im)
  end.

(** [float_pow] of floatobject.c.  The C library's [errno] is not
    modelled: the overflow of [pow] is read off its infinite result. *)
Definition float_pow (iv iw : float) : result value :=
  if is_zero iw then Ok (VFloat one)
  else if is_nan iv then Ok (VFloat iv)
  else if is_nan iw then Ok (VFloat (if (iv =? one)%float then one else iw))
  else if is_infinity iw then
    let iv := abs iv in
    if (iv =? one)%float then Ok (VFloat one)
    else if Bool.eqb (0 <? iw)%float (1 <? iv)%float then Ok (VFloat (abs iw))
    else Ok (VFloat zero)
  else if is_infinity iv then
    let odd := F64.is_odd_integer iw in
    if (0 <? iw)%float then Ok (VFloat (if odd then iv else abs iv))
    else Ok (VFloat (if odd then F64.copysign zero iv else zero))
  else if is_zero iv then
    if (iw <? 0)%float
    then Raise (ZeroDivisionError "0.0 cannot be raised to a negative power")
    else Ok (VFloat (if F64.is_odd_integer iw then iv else zero))
  else if (iv <? 0)%float && negb (iw =? F64.floor iw)%float then
    (* Negative numbers raised to fractional powers become complex. *)
    complex_pow (iv, zero) (iw, zero)
  else
    let negate_result := (iv <? 0)%float && F64.is_odd_integer iw in
    let iv := if (iv <? 0)%float then (- iv)%float else iv in
    if (iv =? one)%float then Ok (VFloat (if negate_result then - one else one)%float)
    else
      let ix := libm_pow rt iv iw in
      if is_infinity ix
      then Raise (OverflowError "(34, 'Numerical result out of range')")
      else Ok (VFloat (if negate_result then - ix else ix)%float).

(** [long_pow]: a negative exponent sends both operands to [float_pow]. *)
Definition int_pow (a b : Z) : result value :=
  if (b <? 0)%Z then
    x <- float_of_int a ;; y <- float_of_int b ;; float_pow x y
  else Ok (VInt (a ^ b)).

Definition pow (a b : value) : result value :=
  dispatch int_pow float_pow complex_pow a b.

End Power.

(** *** Unary plus and minus *)

Definition neg (a : value) : result value :=
  match a with
  | VFloat f => Ok (VFloat (- f))
  | VComplex re im => Ok (VComplex (- re) (- im))
  | _ => Ok (VInt (- int_of a))
  end.

Definition pos (a : value) : result value :=
  match a with
  | VFloat _ | VComplex _ _ => Ok a
  | _ => Ok (VInt (int_of a))
  end.

(** *** [str] of a number, as an f-string prints it *)

Definition str_of_Z (z : Z) : string :=
  DecimalString.NilZero.string_of_int (Z.to_int z).

Fixpoint all_chars (p : ascii -> bool) (s : string) : bool :=
  match s with
  | EmptyString => true
  | String c r => p c && all_chars p r
  end.

(** [float_repr]: the shortest text, with [.0] added when it would read
    as an integer. *)
Definition float_repr (rt : runtime) (f : float) : string :=
  let s := double_to_string_r rt f in
  if all_chars (fun c => PyStr.isdigit c || PyStr.is_char 45 c) s
  then s ++ ".0" else s.

Definition with_sign (s : string) : string :=
  if PyStr.head_is (PyStr.is_char 45) s then s else "+" ++ s.

(** [complex_repr] *)
Definition complex_repr (rt : runtime) (re im : float) : string :=
  if is_zero re && negb (get_sign re) then double_to_string_r rt im ++ "j"
  else "(" ++ double_to_string_r rt re
           ++ with_sign (double_to_string_r rt im) ++ "j)".

Definition str (rt : runtime) (v : value) : string :=
  match v with
  | VInt z => str_of_Z z
  | VBool true => "True"
  | VBool false => "False"
  | VFloat f => float_repr rt f
  | VComplex re im => complex_repr rt re im
  end.

End PyNum.

(** ** The syntax trees of the [ast] module *)

Module Ast.

#[local] Set Warnings "-register-all".

Inductive constant : Type :=
| CInt (z : Z)
| CFloat (f : float)
| CImag (f : float)
| CStr (s : string)
| CBool (b : bool)
| CNone.

Inductive operator : Type :=
| Add | Sub | Mult | MatMult | Div | Mod | Pow
| LShift | RShift | BitOr | BitXor | BitAnd | FloorDiv.

Inductive unaryop : Type := Invert | Not | UAdd | USub.

Inductive expr : Type :=
| Constant (value : constant)
| Name (id : string)
| BinOp (left : expr) (op : operator) (right : expr)
| UnaryOp (op : unaryop) (operand : expr)
| Call (func : expr) (args : list expr)
| Attribute (value : expr) (attr : string).

(** The root that [ast.parse(..., mode="eval")] returns. *)
Inductive node : Type :=
| Expression (body : expr).

(** A node class, as [type(node.op)] or [type(node)] yields it. *)
Inductive class : Type :=
| OperatorClass (o : operator)
| UnaryopClass (u : unaryop)
| ConstantClass | NameClass | BinOpClass | UnaryOpClass | CallClass
| AttributeClass | ExpressionClass.

Definition operator_name (o : operator) : string :=
  match o with
  | Add => "Add" | Sub => "Sub" | Mult => "Mult" | MatMult => "MatMult"
  | Div => "Div" | Mod => "Mod" | Pow => "Pow" | LShift => "LShift"
  | RShift => "RShift" | BitOr => "BitOr" | BitXor => "BitXor"
  | BitAnd => "BitAnd" | FloorDiv => "FloorDiv"
  end.

Definition unaryop_name (u : unaryop) : string :=
  match u with
  | Invert => "Invert" | Not => "Not" | UAdd => "UAdd" | USub => "USub"
  end.

Definition class_name (c : class) : string :=
  match c with
  | OperatorClass o => operator_name o
  | UnaryopClass u => unaryop_name u
  | ConstantClass => "Constant" | NameClass => "Name" | BinOpClass => "BinOp"
  | UnaryOpClass => "UnaryOp" | CallClass => "Call"
  | AttributeClass => "Attribute" | ExpressionClass => "Expression"
  end.

(** [str(cls)] for a class of the [ast] module, as an f-string prints it
    (CPython 3.9 and later; 3.8 names the module [_ast]). *)
Definition class_str (c : class) : string :=
  "<class 'ast." ++ class_name c ++ "'>".

Definition type_of (e : expr) : class :=
  match e with
  | Constant _ => ConstantClass
  | Name _ => NameClass
  | BinOp _ _ _ => BinOpClass
  | UnaryOp _ _ => UnaryOpClass
  | Call _ _ => CallClass
  | Attribute _ _ => AttributeClass
  end.

Definition operator_eqb (a b : operator) : bool :=
  match a, b with
  | Add, Add | Sub, Sub | Mult, Mult | MatMult, MatMult | Div, Div
  | Mod, Mod | Pow, Pow | LShift, LShift | RShift, RShift | BitOr, BitOr
  | BitXor, BitXor | BitAnd, BitAnd | FloorDiv, FloorDiv => true
  | _, _ => false
  end.

Definition unaryop_eqb (a b : unaryop) : bool :=
  match a, b with
  | Invert, Invert | Not, Not | UAdd, UAdd | USub, USub => true
  | _, _ => false
  end.

Definition class_eqb (a b : class) : bool :=
  match a, b with
  | OperatorClass x, OperatorClass y => operator_eqb x y
  | UnaryopClass x, UnaryopClass y => unaryop_eqb x y
  | ConstantClass, ConstantClass | NameClass, NameClass
  | BinOpClass, BinOpClass | UnaryOpClass, UnaryOpClass
  | CallClass, CallClass | AttributeClass, AttributeClass
  | ExpressionClass, ExpressionClass => true
  | _, _ => false
  end.

End Ast.

(** ** The tokens of an expression *)

Module Lexer.

Import PyStr.

Inductive token : Type :=
| TNum (c : Ast.constant)
| TName (id : string)
| TKeyword (kw : string)
| TStr (body : string)
| TOp (sym : string)
| TNewline.

Inductive lex_result : Type :=
| Tokens (ts : list token)
| LexError (msg : string).

Definition tcons (t : token) (r : lex_result) : lex_result :=
  match r with
  | Tokens ts => Tokens (t :: ts)
  | LexError m => LexError m
  end.

Fixpoint take_while (p : ascii -> bool) (s : string) : string * string :=
  match s with
  | EmptyString => (EmptyString, EmptyString)
  | String c r =>
      if p c then let (a, b) := take_while p r in (String c a, b)
      else (EmptyString, s)
  end.

Fixpoint skip_while (p : ascii -> bool) (s : string) : string :=
  match s with
  | EmptyString => EmptyString
  | String c r => if p c then skip_while p r else s
  end.

Definition is_newline (c : ascii) : bool := is_char 10 c || is_char 13 c.

Definition is_id_start (c : ascii) : bool := isalpha c || is_char 95 c.

Definition is_id_continue (c : ascii) : bool :=
  is_id_start c || isdigit c || is_char 183 c.

Definition is_quote (c : ascii) : bool := is_char 34 c || is_char 39 c.

Definition keywords : list string :=
  ["and"; "as"; "assert"; "async"; "await"; "break"; "class"; "continue";
   "def"; "del"; "elif"; "else"; "except"; "finally"; "for"; "from";
   "global"; "if"; "import"; "in"; "is"; "lambda"; "nonlocal"; "not"; "or";
   "pass"; "raise"; "return"; "try"; "while"; "with"; "yield"].

Definition string_prefixes : list string :=
  ["r"; "u"; "b"; "f"; "br"; "rb"; "fr"; "rf"].

Definition mem (x : string) (l : list string) : bool :=
  existsb (String.eqb x) l.

(** *** Numbers *)

Definition digit_value (c : ascii) : Z :=
  if isdigit c then Z.of_N (code c) - 48
  else if between 97 102 c then Z.of_N (code c) - 87
  else if between 65 70 c then Z.of_N (code c) - 55
  else 0.

Definition is_digit_of (base : Z) (c : ascii) : bool :=
  (isdigit c || between 97 102 c || between 65 70 c)
  && (digit_value c <? base)%Z.

Fixpoint Z_of_digits_from (base acc : Z) (s : string) : Z :=
  match s with
  | EmptyString => acc
  | String c r => Z_of_digits_from base (acc * base + digit_value c) r
  end.

Definition Z_of_digits (base : Z) (s : string) : Z := Z_of_digits_from base 0 s.

(** [tok_decimal_tail], for any base: runs of digits, separated by single
    underscores.  Returns the digits without the underscores and the rest;
    [None] when an underscore is not followed by a digit. *)
Fixpoint digit_tail (base : Z) (s : string) : option (string * string) :=
  match s with
  | EmptyString => Some (EmptyString, EmptyString)
  | String c r =>
      if is_digit_of base c then
        match digit_tail base r with
        | Some (ds, rest) => Some (String c ds, rest)
        | None => None
        end
      else if is_char 95 c then
        if head_is (is_digit_of base) r then digit_tail base r else None
      else Some (EmptyString, s)
  end.

(** The keywords that may follow a number without a space between. *)
Definition number_end_keywords : list string :=
  ["and"; "else"; "for"; "if"; "in"; "is"; "not"; "or"].

(** [verify_end_of_number]: a number ends where no identifier character
    follows it, or where one of those keywords does. *)
Definition end_of_number (c : Ast.constant) (rest : string)
  : option (Ast.constant * string) :=
  if head_is is_id_continue rest
     && negb (mem (fst (take_while is_id_continue rest)) number_end_keywords)
  then None else Some (c, rest).

Definition imaginary_or (f : float) (plain : Ast.constant) (rest : string)
  : option (Ast.constant * string) :=
  match rest with
  | String c r =>
      if is_char 106 c || is_char 74 c then end_of_number (Ast.CImag f) r
      else end_of_number plain rest
  | EmptyString => Some (plain, rest)
  end.

(** The exponent of a float literal, after its [e]: an optional sign and
    digits.  Returns the exponent and the rest. *)
Definition lex_exponent (s : string) : option (Z * string) :=
  let (negative, s') :=
    match s with
    | String c r =>
        if is_char 45 c then (true, r)
        else if is_char 43 c then (false, r) else (false, s)
    | EmptyString => (false, s)
    end in
  if head_is isdigit s' then
    match digit_tail 10 s' with
    | Some (ds, rest) =>
        let e := Z_of_digits 10 ds in
        Some (if negative then (- e)%Z else e, rest)
    | None => None
    end
  else None.

(** The float literal with integer digits [ip] and fraction digits [fp],
    followed by [rest], which may hold an exponent and a [j]. *)
Definition lex_float_tail (ip fp rest : string) : option (Ast.constant * string) :=
  let mant := Z_of_digits 10 (ip ++ fp) in
  let scale := (- Z.of_nat (length fp))%Z in
  let plain := F64.of_decimal mant scale in
  match rest with
  | String c r =>
      if is_char 101 c || is_char 69 c then
        match lex_exponent r with
        | Some (e, rest') =>
            let f := F64.of_decimal mant (e + scale) in
            imaginary_or f (Ast.CFloat f) rest'
        | None => end_of_number (Ast.CFloat plain) rest
        end
      else imaginary_or plain (Ast.CFloat plain) rest
  | EmptyString => Some (Ast.CFloat plain, rest)
  end.

Definition all_zeros (s : string) : bool := PyNum.all_chars (is_char 48) s.

(** A literal in base 16, 8 or 2, after its two-character prefix. *)
Definition lex_radix (base : Z) (s : string) : option (Ast.constant * string) :=
  let s' := match s with
            | String c r => if is_char 95 c then r else s
            | EmptyString => s
            end in
  if head_is (is_digit_of base) s' then
    match digit_tail base s' with
    | Some (ds, rest) => end_of_number (Ast.CInt (Z_of_digits base ds)) rest
    | None => None
    end
  else None.

(** A number that starts with a digit. *)
Definition lex_decimal (s : string) : option (Ast.constant * string) :=
  match digit_tail 10 s with
  | None => None
  | Some (ip, rest) =>
      match rest with
      | String c r =>
          if is_char 46 c then
            match digit_tail 10 r with
            | Some (fp, rest') =>
                if head_is (is_char 95) r then None else lex_float_tail ip fp rest'
            | None => None
            end
          else if (is_char 101 c || is_char 69 c)
                  && match lex_exponent r with Some _ => true | None => false end
          then lex_float_tail ip "" rest
          else if is_char 106 c || is_char 74 c then
            end_of_number (Ast.CImag (F64.of_decimal (Z_of_digits 10 ip) 0)) r
          else if head_is (is_char 48) ip && negb (all_zeros ip) then None
          else end_of_number (Ast.CInt (Z_of_digits 10 ip)) rest
      | EmptyString =>
          if head_is (is_char 48) ip && negb (all_zeros ip) then None
          else Some (Ast.CInt (Z_of_digits 10 ip), rest)
      end
  end.

Definition lex_number (s : string) : option (Ast.constant * string) :=
  match s with
  | String c r =>
      if is_char 46 c then
        match digit_tail 10 r with
        | Some (fp, rest) => lex_float_tail "" fp rest
        | None => None
        end
      else if is_char 48 c then
        match r with
        | String x r' =>
            if is_char 120 x || is_char 88 x then lex_radix 16 r'
            else if is_char 111 x || is_char 79 x then lex_radix 8 r'
            else if is_char 98 x || is_char 66 x then lex_radix 2 r'
            else lex_decimal s
        | EmptyString => lex_decimal s
        end
      else lex_decimal s
  | EmptyString => None
  end.

(** *** String literals *)

(** The body of a literal opened by one [q], up to the closing [q] on the
    same line; a backslash takes the next character with it. *)
Fixpoint lex_short_string (q : ascii) (s : string) : option (string * string) :=
  match s with
  | EmptyString => None
  | String c r =>
      if Ascii.eqb c q then Some (EmptyString, r)
      else if is_newline c then None
      else if is_char 92 c then
        match r with
        | String d r' =>
            match lex_short_string q r' with
            | Some (b, rest) => Some (String c (String d b), rest)
            | None => None
            end
        | EmptyString => None
        end
      else
        match lex_short_string q r with
        | Some (b, rest) => Some (String c b, rest)
        | None => None
        end
  end.

(** The body of a literal opened by three [q], up to the next three. *)
Fixpoint lex_long_string (q : ascii) (s : string) : option (string * string) :=
  match s with
  | EmptyString => None
  | String c r =>
      if startswith (String q (String q (String q EmptyString))) s
      then Some (EmptyString, drop 3 s)
      else if is_char 92 c then
        match r with
        | String d r' =>
            match lex_long_string q r' with
            | Some (b, rest) => Some (String c (String d b), rest)
            | None => None
            end
        | EmptyString => None
        end
      else
        match lex_long_string q r with
        | Some (b, rest) => Some (String c b, rest)
        | None => None
        end
  end.

(** A string literal whose first character [q] is a quote. *)
Definition lex_string (q : ascii) (r : string) : option (string * string) :=
  if startswith (String q (String q EmptyString)) r
  then lex_long_string q (drop 2 r)
  else lex_short_string q r.

(** *** Operators and delimiters *)

Definition operators : list string :=
  ["**="; "//="; ">>="; "<<="; "...";
   "**"; "//"; "<<"; ">>"; "<="; ">="; "=="; "!="; "->"; ":=";
   "+="; "-="; "*="; "/="; "%="; "&="; "|="; "^="; "@=";
   "+"; "-"; "*"; "/"; "%"; "@"; "&"; "|"; "^"; "~"; "<"; ">";
   "("; ")"; "["; "]"; "{"; "}"; ","; ":"; "."; ";"; "="].

(** The longest operator that starts [s]: the list has longer ones first. *)
Definition lex_operator (s : string) : option string :=
  find (fun o => startswith o s) operators.

Definition opens (o : string) : bool := mem o ["("; "["; "{"].
Definition closes (o : string) : bool := mem o [")"; "]"; "}"].

(** *** The tokenizer

    [depth] counts the open brackets: inside brackets a line break is
    white space, outside it ends the logical line.  Every step consumes at
    least one character, so [length s] steps are enough. *)
Fixpoint tokenize (fuel depth : nat) (s : string) : lex_result :=
  match fuel with
  | O => match s with
         | EmptyString => Tokens []
         | _ => LexError "out of steps"
         end
  | S fuel' =>
      match s with
      | EmptyString => Tokens []
      | String c r =>
          if is_char 32 c || is_char 9 c || is_char 12 c then
            tokenize fuel' depth r
          else if is_newline c then
            match depth with
            | O => tcons TNewline (tokenize fuel' depth r)
            | S _ => tokenize fuel' depth r
            end
          else if is_char 35 c then
            tokenize fuel' depth (skip_while (fun x => negb (is_newline x)) r)
          else if is_char 92 c then
            match r with
            | String n r' =>
                if is_char 10 n then tokenize fuel' depth r'
                else if is_char 13 n then
                  tokenize fuel' depth
                    (if head_is (is_char 10) r' then drop 1 r' else r')
                else LexError "unexpected character after line continuation character"
            | EmptyString => LexError "unexpected EOF while parsing"
            end
          else if isdigit c || (is_char 46 c && head_is isdigit r) then
            match lex_number s with
            | Some (k, rest) => tcons (TNum k) (tokenize fuel' depth rest)
            | None => LexError "invalid number literal"
            end
          else if is_id_start c then
            let (name, rest) := take_while is_id_continue s in
            if mem (lower name) string_prefixes && head_is is_quote rest then
              match rest with
              | String q r' =>
                  match lex_string q r' with
                  | Some (b, rest') => tcons (TStr b) (tokenize fuel' depth rest')
                  | None => LexError "unterminated string literal"
                  end
              | EmptyString => LexError "unterminated string literal"
              end
            else if mem name keywords then
              tcons (TKeyword name) (tokenize fuel' depth rest)
            else tcons (TName name) (tokenize fuel' depth rest)
          else if is_quote c then
            match lex_string c r with
            | Some (b, rest) => tcons (TStr b) (tokenize fuel' depth rest)
            | None => LexError "unterminated string literal"
            end
          else
            match lex_operator s with
            | Some o =>
                let rest := drop (length o) s in
                if opens o then tcons (TOp o) (tokenize fuel' (S depth) rest)
                else if closes o then
                  match depth with
                  | O => LexError ("unmatched '" ++ o ++ "'")
                  | S d => tcons (TOp o) (tokenize fuel' d rest)
                  end
                else tcons (TOp o) (tokenize fuel' depth rest)
            | None => LexError "invalid character"
            end
      end
  end.

Definition tokens_of (s : string) : lex_result := tokenize (length s) 0 s.

End Lexer.

(** ** The tokenizer never runs out of steps *)

Module LexerSteps.

Import PyStr Lexer.

Lemma take_while_length (p : ascii -> bool) (s : string) :
  length (snd (take_while p s)) <= length s.
Proof.
  induction s as [| c r IH]; simpl; [lia |].
  destruct (p c); [| simpl; lia].
  destruct (take_while p r) as [a b]. simpl in *. lia.
Qed.

Lemma skip_while_length (p : ascii -> bool) (s : string) :
  length (skip_while p s) <= length s.
Proof.
  induction s as [| c r IH]; simpl; [lia |].
  destruct (p c); simpl; lia.
Qed.

Lemma drop_length (n : nat) (s : string) : length (drop n s) <= length s.
Proof.
  revert s. induction n as [| n IH]; intro s; simpl; [lia |].
  destruct s as [| c r]; simpl; [lia |]. specialize (IH r). lia.
Qed.

Lemma isdigit_is_digit_of (c : ascii) : isdigit c = true -> is_digit_of 10 c = true.
Proof.
  intro H. unfold is_digit_of, digit_value. rewrite H. simpl.
  unfold isdigit, between in H. apply andb_prop in H as [H1 H2].
  apply N.leb_le in H1, H2. apply Z.ltb_lt. lia.
Qed.

Lemma digit_tail_length (base : Z) (s : string) :
  forall ds rest, digit_tail base s = Some (ds, rest) -> length rest <= length s.
Proof.
  induction s as [| c r IH]; intros ds rest H; simpl in H.
  - injection H as <- <-. simpl. lia.
  - destruct (is_digit_of base c).
    + destruct (digit_tail base r) as [[ds' rest'] |]; [| discriminate].
      injection H as <- <-. specialize (IH _ _ eq_refl). simpl. lia.
    + destruct (is_char 95 c).
      * destruct (head_is (is_digit_of base) r); [| discriminate].
        specialize (IH _ _ H). simpl. lia.
      * injection H as <- <-. lia.
Qed.

Lemma digit_tail_progress (base : Z) (c : ascii) (r ds rest : string) :
  is_digit_of base c = true ->
  digit_tail base (String c r) = Some (ds, rest) -> length rest <= length r.
Proof.
  intros Hc H. simpl in H. rewrite Hc in H.
  destruct (digit_tail base r) as [[ds' rest'] |] eqn:E; [| discriminate].
  injection H as <- <-. eapply digit_tail_length. eassumption.
Qed.

Lemma end_of_number_length (k k' : Ast.constant) (rest rest' : string) :
  end_of_number k rest = Some (k', rest') -> length rest' <= length rest.
Proof.
  unfold end_of_number. destruct (_ && _); [discriminate |].
  intro H. injection H as <- <-. lia.
Qed.

Lemma imaginary_or_length (f : float) (k k' : Ast.constant) (rest rest' : string) :
  imaginary_or f k rest = Some (k', rest') -> length rest' <= length rest.
Proof.
  unfold imaginary_or. destruct rest as [| c r].
  - intro H. injection H as <- <-. lia.
  - destruct (_ || _); intro H; apply end_of_number_length in H; simpl in *; lia.
Qed.

Lemma lex_exponent_length (s rest : string) (e : Z) :
  lex_exponent s = Some (e, rest) -> length rest <= length s.
Proof.
  unfold lex_exponent.
  set (p := match s with
            | String c r =>
                if is_char 45 c then (true, r)
                else if is_char 43 c then (false, r) else (false, s)
            | EmptyString => (false, s)
            end).
  assert (Hp : length (snd p) <= length s).
  { unfold p. destruct s as [| c r]; simpl; [lia |].
    destruct (is_char 45 c); simpl; [lia |].
    destruct (is_char 43 c); simpl; lia. }
  destruct p as [negative s']. simpl in Hp.
  destruct (head_is isdigit s'); [| discriminate].
  destruct (digit_tail 10 s') as [[ds rest'] |] eqn:E; [| discriminate].
  intro H. injection H as _ <-. apply digit_tail_length in E. lia.
Qed.

Lemma lex_float_tail_length (ip fp rest : string) (k : Ast.constant) (rest' : string) :
  lex_float_tail ip fp rest = Some (k, rest') -> length rest' <= length rest.
Proof.
  unfold lex_float_tail. destruct rest as [| c r].
  - intro H. injection H as <- <-. lia.
  - destruct (_ || _).
    + destruct (lex_exponent r) as [[e r'] |] eqn:E.
      * intro H. apply imaginary_or_length in H. apply lex_exponent_length in E.
        simpl. lia.
      * apply end_of_number_length.
    + apply imaginary_or_length.
Qed.

Lemma lex_radix_length (base : Z) (s : string) (k : Ast.constant) (rest : string) :
  lex_radix base s = Some (k, rest) -> length rest <= length s.
Proof.
  unfold lex_radix.
  set (s' := match s with
             | String c r => if is_char 95 c then r else s
             | EmptyString => s
             end).
  assert (Hs : length s' <= length s).
  { unfold s'. destruct s as [| c r]; simpl; [lia |].
    destruct (is_char 95 c); simpl; lia. }
  destruct (head_is (is_digit_of base) s'); [| discriminate].
  destruct (digit_tail base s') as [[ds r'] |] eqn:E; [| discriminate].
  intro H. apply end_of_number_length in H. apply digit_tail_length in E. lia.
Qed.

Lemma lex_decimal_length (c : ascii) (r : string) (k : Ast.constant) (rest : string) :
  isdigit c = true ->
  lex_decimal (String c r) = Some (k, rest) -> length rest <= length r.
Proof.
  intros Hc. unfold lex_decimal.
  destruct (digit_tail 10 (String c r)) as [[ip r0] |] eqn:E; [| discriminate].
  apply digit_tail_progress in E; [| apply isdigit_is_digit_of; exact Hc].
  destruct r0 as [| x r1].
  - destruct (_ && _); [discriminate |]. intro H. injection H as <- <-. exact E.
  - destruct (is_char 46 x).
    + destruct (digit_tail 10 r1) as [[fp r2] |] eqn:E2; [| discriminate].
      destruct (head_is (is_char 95) r1); [discriminate |].
      intro H. apply lex_float_tail_length in H. apply digit_tail_length in E2.
      simpl in *. lia.
    + destruct (_ && _).
      * intro H. apply lex_float_tail_length in H. lia.
      * destruct (_ || _).
        -- intro H. apply end_of_number_length in H. simpl in *. lia.
        -- destruct (_ && _); [discriminate |].
           intro H. apply end_of_number_length in H. lia.
Qed.

Lemma lex_number_length (c : ascii) (r : string) (k : Ast.constant) (rest : string) :
  isdigit c || is_char 46 c = true ->
  lex_number (String c r) = Some (k, rest) -> length rest <= length r.
Proof.
  intro Hc. unfold lex_number.
  destruct (is_char 46 c) eqn:Edot.
  - destruct (digit_tail 10 r) as [[fp r1] |] eqn:E; [| discriminate].
    intro H. apply lex_float_tail_length in H. apply digit_tail_length in E. lia.
  - rewrite orb_false_r in Hc.
    destruct (is_char 48 c); [| apply lex_decimal_length; exact Hc].
    destruct r as [| x r']; [apply lex_decimal_length; exact Hc |].
    repeat match goal with
           | |- (if ?b then _ else _) = _ -> _ =>
               destruct b;
               [intro H; apply lex_radix_length in H; simpl; lia |]
           end.
    apply lex_decimal_length. exact Hc.
Qed.

Lemma lex_short_string_bounded (q : ascii) (n : nat) :
  forall s b rest,
    length s <= n -> lex_short_string q s = Some (b, rest) ->
    length rest <= length s.
Proof.
  induction n as [| n IH]; intros s b rest Hn H;
    (destruct s as [| c r]; [discriminate |]); simpl in Hn; [lia |].
  simpl in H.
  destruct (Ascii.eqb c q); [injection H as <- <-; simpl; lia |].
  destruct (is_newline c); [discriminate |].
  destruct (is_char 92 c).
  - destruct r as [| d r']; [discriminate |]. simpl in Hn.
    destruct (lex_short_string q r') as [[b' rest'] |] eqn:E; [| discriminate].
    injection H as <- <-. apply IH in E; simpl in *; lia.
  - destruct (lex_short_string q r) as [[b' rest'] |] eqn:E; [| discriminate].
    injection H as <- <-. apply IH in E; simpl in *; lia.
Qed.

Lemma lex_long_string_bounded (q : ascii) (n : nat) :
  forall s b rest,
    length s <= n -> lex_long_string q s = Some (b, rest) ->
    length rest <= length s.
Proof.
  induction n as [| n IH]; intros s b rest Hn H;
    (destruct s as [| c r]; [discriminate |]); simpl in Hn; [lia |].
  cbn [lex_long_string] in H.
  destruct (startswith _ (String c r)).
  - injection H as <- <-. exact (drop_length 3 (String c r)).
  - destruct (is_char 92 c).
    + destruct r as [| d r']; [discriminate |]. simpl in Hn.
      destruct (lex_long_string q r') as [[b' rest'] |] eqn:E; [| discriminate].
      injection H as <- <-. apply IH in E; simpl in *; lia.
    + destruct (lex_long_string q r) as [[b' rest'] |] eqn:E; [| discriminate].
      injection H as <- <-. apply IH in E; simpl in *; lia.
Qed.

Lemma lex_string_length (q : ascii) (r b rest : string) :
  lex_string q r = Some (b, rest) -> length rest <= length r.
Proof.
  unfold lex_string. destruct (startswith _ r).
  - intro H. apply (lex_long_string_bounded q _ _ _ _ (le_n _)) in H.
    pose proof (drop_length 2 r). lia.
  - apply (lex_short_string_bounded q _ _ _ _ (le_n _)).
Qed.

Lemma lex_operator_length (s o : string) :
  lex_operator s = Some o -> 1 <= length o.
Proof.
  unfold lex_operator. intro H. apply find_some in H as [H _].
  unfold operators in H. simpl in H.
  repeat match type of H with
         | _ \/ _ => destruct H as [<- | H]; [simpl; lia |]
         end.
  contradiction.
Qed.

(** The outcome is not the error of an exhausted count. *)
Definition in_time (r : lex_result) : Prop := r <> LexError "out of steps".

Lemma tcons_in_time (t : token) (r : lex_result) : in_time r -> in_time (tcons t r).
Proof.
  unfold in_time. destruct r; simpl; [discriminate | trivial].
Qed.

Lemma tokenize_in_time (fuel : nat) :
  forall depth s, length s <= fuel -> in_time (tokenize fuel depth s).
Proof.
  induction fuel as [| fuel IH]; intros depth s Hlen.
  - destruct s; [discriminate | simpl in Hlen; lia].
  - destruct s as [| c r]; [discriminate |].
    simpl in Hlen. assert (Hr : length r <= fuel) by lia.
    cbn [tokenize].
    destruct (is_char 32 c || is_char 9 c || is_char 12 c); [apply IH; exact Hr |].
    destruct (is_newline c).
    { destruct depth; [apply tcons_in_time |]; apply IH; exact Hr. }
    destruct (is_char 35 c).
    { apply IH. pose proof (skip_while_length (fun x => negb (is_newline x)) r). lia. }
    destruct (is_char 92 c).
    { destruct r as [| n r']; [discriminate |]. simpl in Hr.
      destruct (is_char 10 n); [apply IH; lia |].
      destruct (is_char 13 n); [| discriminate].
      apply IH. destruct (head_is (is_char 10) r'); [| lia].
      pose proof (drop_length 1 r'). lia. }
    destruct (isdigit c || is_char 46 c && head_is isdigit r) eqn:Enum.
    { destruct (lex_number (String c r)) as [[k rest] |] eqn:E; [| discriminate].
      apply tcons_in_time, IH.
      apply lex_number_length in E; [lia |].
      destruct (isdigit c); [reflexivity |].
      simpl in Enum. apply andb_prop in Enum as [-> _]. reflexivity. }
    destruct (is_id_start c) eqn:Eid.
    { pose proof (take_while_length is_id_continue r) as Htw.
      assert (Hc : is_id_continue c = true)
        by (unfold is_id_continue; rewrite Eid; reflexivity).
      cbn [take_while]. rewrite Hc.
      destruct (take_while is_id_continue r) as [a rest]. simpl in Htw.
      destruct (mem (lower (String c a)) string_prefixes && head_is is_quote rest).
      - destruct rest as [| q r']; [discriminate |].
        destruct (lex_string q r') as [[b rest'] |] eqn:E; [| discriminate].
        apply tcons_in_time, IH. apply lex_string_length in E. simpl in Htw. lia.
      - destruct (mem (String c a) keywords); apply tcons_in_time, IH; lia. }
    destruct (is_quote c).
    { destruct (lex_string c r) as [[b rest] |] eqn:E; [| discriminate].
      apply tcons_in_time, IH. apply lex_string_length in E. lia. }
    destruct (lex_operator (String c r)) as [o |] eqn:E; [| discriminate].
    apply lex_operator_length in E.
    assert (Hd : length (drop (length o) (String c r)) <= fuel).
    { destruct (length o) as [| n]; [lia |]. simpl.
      pose proof (drop_length n r). lia. }
    destruct (opens o); [apply tcons_in_time, IH; exact Hd |].
    destruct (closes o); [| apply tcons_in_time, IH; exact Hd].
    destruct depth; [| apply tcons_in_time, IH; exact Hd].
    unfold in_time. simpl. discriminate.
Qed.

Lemma tokens_of_in_time (s : string) : tokens_of s <> LexError "out of steps".
Proof.
  apply (tokenize_in_time (length s) 0 s). lia.
Qed.

End LexerSteps.

(** ** [ast.parse(expr, mode="eval")] *)

Module Parser.

Import Ast Lexer.

Inductive parse_result (A : Type) : Type :=
| Parsed (a : A) (rest : list token)
| SyntaxError (msg : string).
Arguments Parsed {A} a rest.
Arguments SyntaxError {A} msg.

(** The binary operators of the left-associative levels, loosest first:
    [|], [^], [&], shifts, sums, terms. *)
Definition binop_at (lvl : nat) (sym : string) : option operator :=
  match lvl with
  | 0 => if sym =? "|" then Some BitOr else None
  | 1 => if sym =? "^" then Some BitXor else None
  | 2 => if sym =? "&" then Some BitAnd else None
  | 3 => if sym =? "<<" then Some LShift
         else if sym =? ">>" then Some RShift else None
  | 4 => if sym =? "+" then Some Add
         else if sym =? "-" then Some Sub else None
  | 5 => if sym =? "*" then Some Mult
         else if sym =? "/" then Some Div
         else if sym =? "//" then Some FloorDiv
         else if sym =? "%" then Some Mod
         else if sym =? "@" then Some MatMult else None
  | _ => None
  end.

Definition prefix_op (sym : string) : option unaryop :=
  if sym =? "+" then Some UAdd
  else if sym =? "-" then Some USub
  else if sym =? "~" then Some Invert else None.

Definition map_parsed {A B : Type} (f : A -> B) (r : parse_result A)
  : parse_result B :=
  match r with
  | Parsed a rest => Parsed (f a) rest
  | SyntaxError m => SyntaxError m
  end.

Definition unexpected (ts : list token) : string :=
  match ts with
  | [] => "unexpected EOF while parsing"
  | _ => "invalid syntax"
  end.

Definition starts_with_op (sym : string) (ts : list token) : bool :=
  match ts with
  | TOp o :: _ => o =? sym
  | _ => false
  end.

(** Adjacent string literals are one constant. *)
Fixpoint string_run (acc : string) (ts : list token) : string * list token :=
  match ts with
  | TStr b :: rest => string_run (acc ++ b) rest
  | _ => (acc, ts)
  end.

(** Recursive descent over the grammar
<<
   bitwise_or .. term :  level (op level)*          left-associative
   factor             :  ('+' | '-' | '~') factor | power
   power              :  primary ['**' factor]
   primary            :  atom ('.' NAME | '(' args ')')*
   atom               :  NUMBER | NAME | STRING+ | '(' bitwise_or ')'
>>
    Every call passes a smaller [fuel] on. *)
Fixpoint parse_binary (fuel lvl : nat) (ts : list token) {struct fuel}
  : parse_result expr :=
  match fuel with
  | O => SyntaxError "too many nested expressions"
  | S f =>
      if Nat.ltb lvl 6 then
        match parse_binary f (S lvl) ts with
        | Parsed l rest => parse_binary_tail f lvl l rest
        | SyntaxError m => SyntaxError m
        end
      else parse_factor f ts
  end

with parse_binary_tail (fuel lvl : nat) (l : expr) (ts : list token)
  {struct fuel} : parse_result expr :=
  match fuel with
  | O => SyntaxError "too many nested expressions"
  | S f =>
      match ts with
      | TOp o :: rest =>
          match binop_at lvl o with
          | Some op =>
              match parse_binary f (S lvl) rest with
              | Parsed r rest' => parse_binary_tail f lvl (BinOp l op r) rest'
              | SyntaxError m => SyntaxError m
              end
          | None => Parsed l ts
          end
      | _ => Parsed l ts
      end
  end

with parse_factor (fuel : nat) (ts : list token) {struct fuel}
  : parse_result expr :=
  match fuel with
  | O => SyntaxError "too many nested expressions"
  | S f =>
      match ts with
      | TOp o :: rest =>
          match prefix_op o with
          | Some u => map_parsed (UnaryOp u) (parse_factor f rest)
          | None => parse_power f ts
          end
      | _ => parse_power f ts
      end
  end

with parse_power (fuel : nat) (ts : list token) {struct fuel}
  : parse_result expr :=
  match fuel with
  | O => SyntaxError "too many nested expressions"
  | S f =>
      match parse_primary f ts with
      | Parsed b (TOp o :: rest) =>
          if o =? "**"
          then map_parsed (BinOp b Pow) (parse_factor f rest)
          else Parsed b (TOp o :: rest)
      | r => r
      end
  end

with parse_primary (fuel : nat) (ts : list token) {struct fuel}
  : parse_result expr :=
  match fuel with
  | O => SyntaxError "too many nested expressions"
  | S f =>
      match parse_atom f ts with
      | Parsed a rest => parse_trailers f a rest
      | SyntaxError m => SyntaxError m
      end
  end

with parse_trailers (fuel : nat) (e : expr) (ts : list token) {struct fuel}
  : parse_result expr :=
  match fuel with
  | O => SyntaxError "too many nested expressions"
  | S f =>
      match ts with
      | TOp o :: rest =>
          if o =? "." then
            match rest with
            | TName n :: rest' => parse_trailers f (Attribute e n) rest'
            | _ => SyntaxError (unexpected rest)
            end
          else if o =? "(" then
            match parse_args f rest with
            | Parsed args rest' => parse_trailers f (Call e args) rest'
            | SyntaxError m => SyntaxError m
            end
          else Parsed e ts
      | _ => Parsed e ts
      end
  end

with parse_args (fuel : nat) (ts : list token) {struct fuel}
  : parse_result (list expr) :=
  match fuel with
  | O => SyntaxError "too many nested expressions"
  | S f =>
      if starts_with_op ")" ts then Parsed [] (tl ts)
      else
        match parse_binary f 0 ts with
        | Parsed a (TOp o :: rest) =>
            if o =? "," then map_parsed (cons a) (parse_args f rest)
            else if o =? ")" then Parsed [a] rest
            else SyntaxError "invalid syntax"
        | Parsed _ rest => SyntaxError (unexpected rest)
        | SyntaxError m => SyntaxError m
        end
  end

with parse_atom (fuel : nat) (ts : list token) {struct fuel}
  : parse_result expr :=
  match fuel with
  | O => SyntaxError "too many nested expressions"
  | S f =>
      match ts with
      | TNum c :: rest => Parsed (Constant c) rest
      | TName n :: rest =>
          if n =? "True" then Parsed (Constant (CBool true)) rest
          else if n =? "False" then Parsed (Constant (CBool false)) rest
          else if n =? "None" then Parsed (Constant CNone) rest
          else Parsed (Name n) rest
      | TStr b :: rest =>
          let (body, rest') := string_run b rest in
          Parsed (Constant (CStr body)) rest'
      | TOp o :: rest =>
          if o =? "(" then
            match parse_binary f 0 rest with
            | Parsed e (TOp c :: rest') =>
                if c =? ")" then Parsed e rest' else SyntaxError "invalid syntax"
            | Parsed _ rest' => SyntaxError (unexpected rest')
            | SyntaxError m => SyntaxError m
            end
          else SyntaxError "invalid syntax"
      | _ => SyntaxError (unexpected ts)
      end
  end.

(** Enough fuel for any token list: a token accounts for at most one pass
    through the ten levels, and one more for the tail that follows it. *)
Definition fuel_for (ts : list token) : nat := 24 * (List.length ts + 1).

(** Blank lines and comment lines before the expression are skipped; white
    space before its first token is an unexpected indent ([None]). *)
Fixpoint skip_blank_lines (in_comment : bool) (indent : nat) (s : string)
  : option string :=
  match s with
  | EmptyString => Some EmptyString
  | String c r =>
      if is_newline c then skip_blank_lines false 0 r
      else if in_comment then skip_blank_lines true indent r
      else if PyStr.is_char 32 c || PyStr.is_char 9 c then
        skip_blank_lines false (S indent) r
      else if PyStr.is_char 12 c then skip_blank_lines false 0 r
      else if PyStr.is_char 35 c then skip_blank_lines true indent r
      else match indent with
           | O => Some s
           | S _ => None
           end
  end.

Definition only_newlines (ts : list token) : bool :=
  forallb (fun t => match t with TNewline => true | _ => false end) ts.

(** [ast.parse(s, mode="eval")]: the tree, or the text of the
    SyntaxError. *)
Definition parse (s : string) : node + string :=
  match skip_blank_lines false 0 s with
  | None => inr "unexpected indent"
  | Some s' =>
      match tokens_of s' with
      | LexError m => inr m
      | Tokens ts =>
          match parse_binary (fuel_for ts) 0 ts with
          | Parsed e rest =>
              if only_newlines rest then inl (Expression e)
              else inr "invalid syntax"
          | SyntaxError m => inr m
          end
      end
  end.

End Parser.

(** * The grammar the parser implements *)

Module Grammar.

Import Ast Lexer Parser.
Local Open Scope list_scope.

Definition atom_of_name (n : string) : expr :=
  if n =? "True" then Constant (CBool true)
  else if n =? "False" then Constant (CBool false)
  else if n =? "None" then Constant CNone
  else Name n.

(** Levels 0 to 5 are the left-associative binary levels of [binop_at];
    6 is [factor], 7 is [power], 8 is [primary], 9 is [atom].
<<
   level(n)  :  level(n+1) (op(n) level(n+1))*         n = 0 .. 5
   factor    :  ('+' | '-' | '~') factor | power
   power     :  primary '**' factor | primary
   primary   :  atom ('.' NAME | '(' arguments)*
   atom      :  NUMBER | NAME | STRING+ | '(' level(0) ')'
   arguments :  ')' | level(0) ')' | level(0) ',' arguments
>>
    [chain n l ts e]: continuing the left operand [l] with the operators
    and operands [ts] at level [n] gives [e]. *)
Inductive derives : nat -> list token -> expr -> Prop :=
| D_level lvl t0 l ts e :
    lvl < 6 -> derives (S lvl) t0 l -> chain lvl l ts e ->
    derives lvl (t0 ++ ts) e
| D_prefix o u ts e :
    prefix_op o = Some u -> derives 6 ts e ->
    derives 6 (TOp o :: ts) (UnaryOp u e)
| D_factor ts e : derives 7 ts e -> derives 6 ts e
| D_pow tb b te x :
    derives 8 tb b -> derives 6 te x ->
    derives 7 (tb ++ TOp "**" :: te) (BinOp b Pow x)
| D_power ts e : derives 8 ts e -> derives 7 ts e
| D_primary ta a ts e :
    derives 9 ta a -> trailers a ts e -> derives 8 (ta ++ ts) e
| D_num c : derives 9 [TNum c] (Constant c)
| D_name n : derives 9 [TName n] (atom_of_name n)
| D_str b more :
    Forall (fun t => exists s, t = TStr s) more ->
    derives 9 (TStr b :: more) (Constant (CStr (fst (string_run b more))))
| D_paren ts e :
    derives 0 ts e -> derives 9 (TOp "(" :: ts ++ [TOp ")"]) e

with chain : nat -> expr -> list token -> expr -> Prop :=
| C_done lvl l : chain lvl l [] l
| C_more lvl l o op tr r ts e :
    binop_at lvl o = Some op -> derives (S lvl) tr r ->
    chain lvl (BinOp l op r) ts e ->
    chain lvl l (TOp o :: tr ++ ts) e

with trailers : expr -> list token -> expr -> Prop :=
| T_done a : trailers a [] a
| T_attr a n ts e :
    trailers (Attribute a n) ts e ->
    trailers a (TOp "." :: TName n :: ts) e
| T_call a targs args ts e :
    arguments targs args -> trailers (Call a args) ts e ->
    trailers a (TOp "(" :: targs ++ ts) e

with arguments : list token -> list expr -> Prop :=
| A_none : arguments [TOp ")"] []
| A_last ta a : derives 0 ta a -> arguments (ta ++ [TOp ")"]) [a]
| A_more ta a ts args :
    derives 0 ta a -> arguments ts args ->
    arguments (ta ++ TOp "," :: ts) (a :: args).

Scheme derives_mut := Minimality for derives Sort Prop
  with chain_mut := Minimality for chain Sort Prop
  with trailers_mut := Minimality for trailers Sort Prop
  with arguments_mut := Minimality for arguments Sort Prop.

Combined Scheme grammar_ind
  from derives_mut, chain_mut, trailers_mut, arguments_mut.


(** ** The parser derives what it returns *)

Lemma binop_at_level (lvl : nat) (o : string) (op : operator) :
  binop_at lvl o = Some op -> lvl < 6.
Proof.
  do 6 (destruct lvl as [| lvl]; [lia |]). discriminate.
Qed.

Lemma string_run_spec (ts : list token) :
  forall acc body rest,
    string_run acc ts = (body, rest) ->
    exists more,
      ts = more ++ rest
      /\ Forall (fun t => exists s, t = TStr s) more
      /\ body = fst (string_run acc more).
Proof.
  induction ts as [| t ts IH]; intros acc body rest H; simpl in H.
  - injection H as <- <-. exists []. repeat split. constructor.
  - destruct t; try (injection H as <- <-; exists []; repeat split; constructor).
    destruct (IH _ _ _ H) as (more & -> & Hall & ->).
    exists (TStr body0 :: more). repeat split.
    constructor; [eexists; reflexivity | exact Hall].
Qed.

(** What the eight parsing functions promise at a given fuel. *)
Definition sound_at (f : nat) : Prop :=
  (forall lvl ts e rest, lvl <= 6 ->
     parse_binary f lvl ts = Parsed e rest ->
     exists used, ts = used ++ rest /\ derives lvl used e)
  /\ (forall lvl l ts e rest,
        parse_binary_tail f lvl l ts = Parsed e rest ->
        exists used, ts = used ++ rest /\ chain lvl l used e)
  /\ (forall ts e rest,
        parse_factor f ts = Parsed e rest ->
        exists used, ts = used ++ rest /\ derives 6 used e)
  /\ (forall ts e rest,
        parse_power f ts = Parsed e rest ->
        exists used, ts = used ++ rest /\ derives 7 used e)
  /\ (forall ts e rest,
        parse_primary f ts = Parsed e rest ->
        exists used, ts = used ++ rest /\ derives 8 used e)
  /\ (forall a ts e rest,
        parse_trailers f a ts = Parsed e rest ->
        exists used, ts = used ++ rest /\ trailers a used e)
  /\ (forall ts args rest,
        parse_args f ts = Parsed args rest ->
        exists used, ts = used ++ rest /\ arguments used args)
  /\ (forall ts e rest,
        parse_atom f ts = Parsed e rest ->
        exists used, ts = used ++ rest /\ derives 9 used e).

Ltac string_eq :=
  repeat match goal with
         | H : (_ =? _)%string = true |- _ => apply String.eqb_eq in H; subst
         end.

Lemma sound_step (f : nat) : sound_at f -> sound_at (S f).
Proof.
  intros (Hbin & Htail & Hfac & Hpow & Hprim & Htr & Hargs & Hatom).
  repeat split.
  - (* parse_binary *)
    intros lvl ts e rest Hl H. cbn [parse_binary] in H.
    destruct (Nat.ltb lvl 6) eqn:E.
    + apply Nat.ltb_lt in E.
      destruct (parse_binary f (S lvl) ts) as [l r1 | m] eqn:E1; [| discriminate].
      destruct (Hbin _ _ _ _ E E1) as (u1 & -> & D1).
      destruct (Htail _ _ _ _ _ H) as (u2 & -> & D2).
      exists (u1 ++ u2). split; [apply app_assoc |].
      eapply D_level; eassumption.
    + apply Nat.ltb_ge in E. assert (lvl = 6) as -> by lia.
      apply Hfac. exact H.
  - (* parse_binary_tail *)
    intros lvl l ts e rest H. cbn [parse_binary_tail] in H.
    destruct ts as [| [c | n | k | b | o |] ts'];
      try (injection H as <- <-; exists []; split; [reflexivity | constructor]).
    destruct (binop_at lvl o) as [op |] eqn:Eo;
      [| injection H as <- <-; exists []; split; [reflexivity | constructor]].
    destruct (parse_binary f (S lvl) ts') as [r r1 | m] eqn:E1; [| discriminate].
    pose proof (binop_at_level _ _ _ Eo) as Hl.
    destruct (Hbin _ _ _ _ Hl E1) as (u1 & -> & D1).
    destruct (Htail _ _ _ _ _ H) as (u2 & -> & D2).
    exists (TOp o :: u1 ++ u2). split; [simpl; rewrite app_assoc; reflexivity |].
    eapply C_more; eassumption.
  - (* parse_factor *)
    intros ts e rest H. cbn [parse_factor] in H.
    assert (Hp : parse_power f ts = Parsed e rest ->
                 exists used, ts = used ++ rest /\ derives 6 used e).
    { intro H'. destruct (Hpow _ _ _ H') as (u & -> & D).
      exists u. split; [reflexivity | apply D_factor; exact D]. }
    destruct ts as [| [c | n | k | b | o |] ts']; try (apply Hp; exact H).
    destruct (prefix_op o) as [u |] eqn:Eo; [| apply Hp; exact H].
    destruct (parse_factor f ts') as [x r1 | m] eqn:E1; [| discriminate].
    simpl in H. injection H as <- <-.
    destruct (Hfac _ _ _ E1) as (u1 & -> & D1).
    exists (TOp o :: u1). split; [reflexivity |].
    apply D_prefix; assumption.
  - (* parse_power *)
    intros ts e rest H. cbn [parse_power] in H.
    destruct (parse_primary f ts) as [b r1 | m] eqn:E1; [| discriminate].
    destruct (Hprim _ _ _ E1) as (u1 & -> & D1).
    assert (Hp : Parsed b r1 = Parsed e rest ->
                 exists used, u1 ++ r1 = used ++ rest /\ derives 7 used e).
    { intro H'. injection H' as <- <-. exists u1.
      split; [reflexivity | apply D_power; exact D1]. }
    destruct r1 as [| [c | n | k | s | o |] r1']; try (apply Hp; exact H).
    destruct (o =? "**")%string eqn:Eo; [| apply Hp; exact H].
    string_eq.
    destruct (parse_factor f r1') as [x r2 | m] eqn:E2; [| discriminate].
    simpl in H. injection H as <- <-.
    destruct (Hfac _ _ _ E2) as (u2 & -> & D2).
    exists (u1 ++ TOp "**" :: u2). split.
    + rewrite <- app_assoc. reflexivity.
    + apply D_pow; assumption.
  - (* parse_primary *)
    intros ts e rest H. cbn [parse_primary] in H.
    destruct (parse_atom f ts) as [a r1 | m] eqn:E1; [| discriminate].
    destruct (Hatom _ _ _ E1) as (u1 & -> & D1).
    destruct (Htr _ _ _ _ H) as (u2 & -> & D2).
    exists (u1 ++ u2). split; [apply app_assoc |].
    eapply D_primary; eassumption.
  - (* parse_trailers *)
    intros a ts e rest H. cbn [parse_trailers] in H.
    destruct ts as [| [c | n | k | b | o |] ts'];
      try (injection H as <- <-; exists []; split; [reflexivity | constructor]).
    destruct (o =? ".")%string eqn:Edot.
    + string_eq.
      destruct ts' as [| [c | n | k | b | o |] ts'']; try discriminate.
      destruct (Htr _ _ _ _ H) as (u & -> & D).
      exists (TOp "." :: TName n :: u). split; [reflexivity |].
      apply T_attr. exact D.
    + destruct (o =? "(")%string eqn:Epar.
      * string_eq.
        destruct (parse_args f ts') as [args r1 | m] eqn:E1; [| discriminate].
        destruct (Hargs _ _ _ E1) as (u1 & -> & D1).
        destruct (Htr _ _ _ _ H) as (u2 & -> & D2).
        exists (TOp "(" :: u1 ++ u2). split.
        -- simpl. rewrite app_assoc. reflexivity.
        -- eapply T_call; eassumption.
      * injection H as <- <-. exists []. split; [reflexivity | constructor].
  - (* parse_args *)
    intros ts args rest H. cbn [parse_args] in H.
    destruct (starts_with_op ")" ts) eqn:Eclose.
    { destruct ts as [| [c | n | k | b | o |] ts']; try discriminate.
      simpl in Eclose. string_eq. injection H as <- <-.
      exists [TOp ")"]. split; [reflexivity | constructor]. }
    destruct (parse_binary f 0 ts) as [a r1 | m] eqn:E1; [| discriminate].
    destruct (Hbin 0 _ _ _ (Nat.le_0_l 6) E1) as (u1 & -> & D1).
    destruct r1 as [| [c | n | k | b | o |] r1']; try discriminate.
    destruct (o =? ",")%string eqn:Ec.
    + string_eq.
      destruct (parse_args f r1') as [more r2 | m] eqn:E2; [| discriminate].
      simpl in H. injection H as <- <-.
      destruct (Hargs _ _ _ E2) as (u2 & -> & D2).
      exists (u1 ++ TOp "," :: u2). split.
      * rewrite <- app_assoc. reflexivity.
      * apply A_more; assumption.
    + destruct (o =? ")")%string eqn:Ep; [| discriminate].
      string_eq. injection H as <- <-.
      exists (u1 ++ [TOp ")"]). split.
      * rewrite <- app_assoc. reflexivity.
      * apply A_last. exact D1.
  - (* parse_atom *)
    intros ts e rest H. cbn [parse_atom] in H.
    destruct ts as [| [c | n | k | b | o |] ts']; try discriminate.
    + injection H as <- <-. exists [TNum c]. split; [reflexivity | constructor].
    + exists [TName n]. split.
      * unfold atom_of_name in *.
        destruct (n =? "True")%string; [injection H as <- <-; reflexivity |].
        destruct (n =? "False")%string; [injection H as <- <-; reflexivity |].
        destruct (n =? "None")%string; injection H as <- <-; reflexivity.
      * replace e with (atom_of_name n); [constructor |].
        unfold atom_of_name.
        destruct (n =? "True")%string; [injection H as <- <-; reflexivity |].
        destruct (n =? "False")%string; [injection H as <- <-; reflexivity |].
        destruct (n =? "None")%string; injection H as <- <-; reflexivity.
    + destruct (string_run b ts') as [body r1] eqn:E1.
      injection H as <- <-.
      destruct (string_run_spec _ _ _ _ E1) as (more & -> & Hall & ->).
      exists (TStr b :: more). split; [reflexivity |].
      apply D_str. exact Hall.
    + destruct (o =? "(")%string eqn:Epar; [| discriminate].
      string_eq.
      destruct (parse_binary f 0 ts') as [x r1 | m] eqn:E1; [| discriminate].
      destruct (Hbin 0 _ _ _ (Nat.le_0_l 6) E1) as (u1 & -> & D1).
      destruct r1 as [| [c | n | k | b | o |] r1']; try discriminate.
      destruct (o =? ")")%string eqn:Ep; [| discriminate].
      string_eq. injection H as <- <-.
      exists (TOp "(" :: u1 ++ [TOp ")"]). split.
      * simpl. rewrite <- app_assoc. reflexivity.
      * apply D_paren. exact D1.
Qed.

Lemma sound_at_all (f : nat) : sound_at f.
Proof.
  induction f as [| f IH]; [| apply sound_step; exact IH].
  repeat split; intros; discriminate.
Qed.


(** ** The parser returns what the grammar derives *)




(** The first token of an operand of level [lvl]. *)
Definition starts_operand (lvl : nat) (ts : list token) : bool :=
  match ts with
  | TNum _ :: _ | TName _ :: _ | TStr _ :: _ => true
  | TOp o :: _ =>
      (o =? "(")%string
      || (Nat.leb lvl 6 && match prefix_op o with Some _ => true | None => false end)
  | _ => false
  end.











Lemma starts_operand_cons (lvl : nat) (ts : list token) :
  starts_operand lvl ts = true -> exists t ts', ts = t :: ts'.
Proof.
  destruct ts as [| t ts']; [discriminate | eauto].
Qed.
















End Grammar.

(** ** The evaluator of [src/main.py] *)

Module Calc.

Import PyNum Ast.

(** The functions of the [operator] module that the program names. *)
Inductive operator_fn : Type :=
| op_add | op_sub | op_mul | op_truediv | op_pow | op_mod | op_floordiv
| op_pos | op_neg.

Definition fn_name (f : operator_fn) : string :=
  match f with
  | op_add => "add" | op_sub => "sub" | op_mul => "mul"
  | op_truediv => "truediv" | op_pow => "pow" | op_mod => "mod"
  | op_floordiv => "floordiv" | op_pos => "pos" | op_neg => "neg"
  end.

(** A dict from node classes to functions, in insertion order. *)
Definition table : Type := list (class * operator_fn).

Fixpoint lookup (k : class) (t : table) : option operator_fn :=
  match t with
  | [] => None
  | (k', f) :: t' => if class_eqb k k' then Some f else lookup k t'
  end.

(** [k in t] *)
Definition contains_key (k : class) (t : table) : bool :=
  match lookup k t with Some _ => true | None => false end.

(** The module-level dict of lines 53-63. *)
Definition _ALLOWED_OPERATORS : table :=
  [ (OperatorClass Add, op_add);
    (OperatorClass Sub, op_sub);
    (OperatorClass Mult, op_mul);
    (OperatorClass Div, op_truediv);
    (OperatorClass Pow, op_pow);
    (OperatorClass Mod, op_mod);
    (OperatorClass FloorDiv, op_floordiv);
    (UnaryopClass UAdd, op_pos);
    (UnaryopClass USub, op_neg) ].

(** The mutable module state the evaluator can see. *)
Record globals : Type := { allowed_operators : table }.

Definition module_globals : globals :=
  {| allowed_operators := _ALLOWED_OPERATORS |}.

(** Computations that read or write the module state and may raise. *)
Definition M (A : Type) : Type := globals -> result A * globals.

Definition ret {A : Type} (a : A) : M A := fun g => (Ok a, g).

Definition raise {A : Type} (e : exn) : M A := fun g => (Raise e, g).

Definition mbind {A B : Type} (m : M A) (k : A -> M B) : M B :=
  fun g =>
    match m g with
    | (Ok a, g') => k a g'
    | (Raise e, g') => (Raise e, g')
    end.

Definition lift {A : Type} (r : result A) : M A := fun g => (r, g).

Definition read_table : M table := fun g => (Ok (allowed_operators g), g).

Notation "x <~ m ;; k" := (mbind m (fun x => k))
  (at level 61, m at next level, right associativity).

Section Evaluator.

Variable rt : runtime.

(** [f(a, b)] *)
Definition call2 (f : operator_fn) (a b : value) : result value :=
  match f with
  | op_add => add a b
  | op_sub => sub a b
  | op_mul => mul a b
  | op_truediv => truediv a b
  | op_pow => pow rt a b
  | op_mod => mod_ a b
  | op_floordiv => floordiv a b
  | op_pos | op_neg =>
      Raise (TypeError (fn_name f ++ " expected 1 argument, got 2"))
  end.

(** [f(a)] *)
Definition call1 (f : operator_fn) (a : value) : result value :=
  match f with
  | op_pos => pos a
  | op_neg => neg a
  | _ => Raise (TypeError (fn_name f ++ " expected 2 arguments, got 1"))
  end.

(** [_ALLOWED_OPERATORS[op_type]] *)
Definition subscript (op_type : class) : M operator_fn :=
  t <~ read_table ;;
  match lookup op_type t with
  | Some f => ret f
  | None => raise (KeyError (class_str op_type))
  end.

(** [_eval] on the nodes below the root (lines 110-130).  The test
    [isinstance(node, ast.Num)] of line 114 comes after the one for
    [ast.Constant] and holds for no other node, so it selects nothing. *)
Fixpoint _eval (node : expr) : M value :=
  match node with
  | Constant v =>
      match v with
      | CInt z => ret (VInt z)
      | CBool b => ret (VBool b)
      | CFloat f => ret (VFloat f)
      | _ => raise (ValueError "Only numeric constants are allowed")
      end
  | BinOp left_ op right_ =>
      let op_type := OperatorClass op in
      t <~ read_table ;;
      if negb (contains_key op_type t)
      then raise (ValueError ("Operator " ++ class_str op_type ++ " not supported"))
      else
        l <~ _eval left_ ;;
        r <~ _eval right_ ;;
        f <~ subscript op_type ;;
        lift (call2 f l r)
  | UnaryOp op operand =>
      let op_type := UnaryopClass op in
      t <~ read_table ;;
      if negb (contains_key op_type t)
      then raise (ValueError ("Unary operator " ++ class_str op_type
                              ++ " not supported"))
      else
        x <~ _eval operand ;;
        f <~ subscript op_type ;;
        lift (call1 f x)
  | _ =>
      raise (ValueError ("Unsupported expression type: "
                         ++ class_str (type_of node)))
  end.

(** [_eval] on the root (lines 108-109). *)
Definition _eval_node (n : node) : M value :=
  match n with
  | Expression body => _eval body
  end.

(** [safe_eval_expr] (lines 90-132).  The text CPython gives a
    SyntaxError varies with its version; the model keeps the parser's
    short description. *)
Definition safe_eval_expr (expr : string) : M value :=
  let expr := PyStr.strip expr in
  if (expr =? "")%string then raise (ValueError "Empty expression")
  else
    match Parser.parse expr with
    | inr e => raise (ValueError ("Invalid expression: " ++ e))
    | inl node => _eval_node node
    end.

End Evaluator.

End Calc.

(** ** [chatbot_response] *)

Module Bot.

Import PyStr PyNum Calc.

(** What [chatbot_response] returns.  The two replies of the calculator
    are f-strings and carry their text; the other rules return fixed
    texts, or one of several picked by [random.choice], and are named by
    the rule, with the index of the pick. *)
Inductive response : Type :=
| Says (text : string)
| SlashHint
| Greeting (i : nat)
| Farewell (i : nat)
| Thanks (i : nat)
| HowAreYou
| NameReply
| CurrentTime
| TodaysDate
| Joke (i : nat)
| Fact (i : nat)
| Sad
| Happy
| Faq (i : nat)
| QuizHint
| Fallback (i : nat).

(** [re.match(r"^calc[: ]+(.+)", lower)]: the group, when the pattern
    matches.  The separators are taken greedily; when nothing is left on
    the line for the group, the last of at least two separators is given
    back to it. *)
Definition calc_match (lower : string) : option string :=
  if startswith "calc" lower then
    let (seps, tail) :=
      Lexer.take_while (fun c => is_char 58 c || is_char 32 c) (drop 4 lower) in
    let line := fst (Lexer.take_while (fun c => negb (is_char 10 c)) tail) in
    match seps, line with
    | EmptyString, _ => None
    | _, String _ _ => Some line
    | String _ (String _ _), EmptyString =>
        Some (drop (length seps - 1) seps)
    | _, _ => None
    end
  else None.

(** A character of the class [[0-9\s\.\+\-\*\/\%\(\)\^//]]. *)
Definition math_char (c : ascii) : bool :=
  isdigit c || isspace c || is_char 46 c || is_char 43 c || is_char 45 c
  || is_char 42 c || is_char 47 c || is_char 37 c || is_char 40 c
  || is_char 41 c || is_char 94 c.

(** [re.fullmatch(r"[0-9\s\.\+\-\*\/\%\(\)\^//]+", s)] *)
Definition math_fullmatch (s : string) : bool :=
  negb (s =? "")%string && all_chars math_char s.

Definition faqs : list string :=
  ["what can you do"; "how to exit"; "how to save"].

Fixpoint first_faq (i : nat) (qs : list string) (lower : string) : option nat :=
  match qs with
  | [] => None
  | q :: qs' => if contains q lower then Some i else first_faq (S i) qs' lower
  end.

Section Response.

Variable rt : runtime.

(** The draw of [random.choice]: an index into a list of [n] texts. *)
Variable draw : nat.

Definition choice (n : nat) : nat := Nat.modulo draw n.

(** [f"Result: {result}"] *)
Definition result_text (v : value) : string := "Result: " ++ str rt v.

(** [f"Calculator error: {e}"] *)
Definition error_text (e : exn) : string := "Calculator error: " ++ exn_str e.

(** The rules after the calculator (lines 248-274). *)
Definition later_rules (lower : string) : response :=
  if search_words ["sad"; "down"; "unhappy"; "depressed"] lower then Sad
  else if search_words ["happy"; "great"; "awesome"; "good"; "fantastic"] lower
  then Happy
  else
    match first_faq 0 faqs lower with
    | Some i => Faq i
    | None =>
        if contains "quiz" lower then QuizHint else Fallback (choice 3)
    end.

(** The rules before the calculator (lines 172-225), in order; [None]
    when none of them fires. *)
Definition earlier_rules (lower : string) : option response :=
  if startswith "/" lower then Some SlashHint
  else if search_words ["hi"; "hello"; "hey"; "hiya"; "sup"] lower
  then Some (Greeting (choice 3))
  else if search_words ["bye"; "goodbye"; "see ya"; "see you"; "later"] lower
  then Some (Farewell (choice 3))
  else if search_words ["thanks"; "thank you"; "thx"] lower
  then Some (Thanks (choice 3))
  else if search_words ["how are you"] lower then Some HowAreYou
  else if search_words ["your name"; "who are you"] lower then Some NameReply
  else if search_words ["time"; "current time"; "what time"] lower
  then Some CurrentTime
  else if search_words ["date"; "today's date"; "what date"] lower
  then Some TodaysDate
  else if contains "joke" lower then Some (Joke (choice 3))
  else if contains "fact" lower || contains "random fact" lower
  then Some (Fact (choice 3))
  else None.

(** The two calculator rules (lines 227-246): the [calc] command, whose
    failure is reported, and the bare expression, whose failure is passed
    over. *)
Definition calculator_rules (lower : string) : M response :=
  match calc_match lower with
  | Some expr =>
      fun g =>
        match safe_eval_expr rt expr g with
        | (Ok result, g') => (Ok (Says (result_text result)), g')
        | (Raise e, g') => (Ok (Says (error_text e)), g')
        end
  | None =>
      if math_fullmatch (replace_caret lower) then
        let expr := replace_caret lower in
        fun g =>
          match safe_eval_expr rt expr g with
          | (Ok result, g') => (Ok (Says (result_text result)), g')
          | (Raise _, g') => (Ok (later_rules lower), g')
          end
      else ret (later_rules lower)
  end.

(** [chatbot_response] (lines 163-274). *)
Definition chatbot_response (user_input : string) : M response :=
  let text := strip user_input in
  let lower := lower text in
  match earlier_rules lower with
  | Some r => ret r
  | None => calculator_rules lower
  end.

End Response.

End Bot.

(** * Properties of the evaluator *)

Import PyStr PyNum Ast Calc Bot.

(** A runtime for the closed examples: it answers NaN wherever CPython
    would ask the C library.  The examples either never reach such a call
    or are stated so that the answer does not matter. *)
Definition no_libm : runtime :=
  {| libm_pow := fun _ _ => nan;
     libm_hypot := fun _ _ => nan;
     libm_atan2 := fun _ _ => nan;
     libm_exp := fun _ => nan;
     libm_log := fun _ => nan;
     libm_cos := fun _ => nan;
     libm_sin := fun _ => nan;
     double_to_string_r := fun _ => "nan" |}.

(** [evaluate] of the specification: [safe_eval_expr] run on the module
    as it is loaded. *)
Definition evaluate (rt : runtime) (s : string) : result value :=
  fst (safe_eval_expr rt s module_globals).

(** ** The evaluator only reads the module state *)

Ltac step_M :=
  unfold mbind, read_table, subscript, raise, ret, lift in *; simpl in *.

Lemma _eval_keeps_state rt (e : expr) :
  forall g, snd (_eval rt e g) = g.
Proof.
  induction e as [v | id | l IHl op r IHr | op x IHx | f args | v attr];
    intro g; simpl.
  - destruct v; reflexivity.
  - reflexivity.
  - step_M. destruct (contains_key _ _); simpl; [| reflexivity].
    specialize (IHl g). destruct (_eval rt l g) as [[a | e] g1]; simpl in *; subst g1;
      [| reflexivity].
    specialize (IHr g). destruct (_eval rt r g) as [[b | e] g2]; simpl in *; subst g2;
      [| reflexivity].
    cbv [mbind read_table subscript raise ret lift].
    destruct (lookup _ (allowed_operators g)); reflexivity.
  - step_M. destruct (contains_key _ _); simpl; [| reflexivity].
    specialize (IHx g). destruct (_eval rt x g) as [[a | e] g1]; simpl in *; subst g1;
      [| reflexivity].
    cbv [mbind read_table subscript raise ret lift].
    destruct (lookup _ (allowed_operators g)); reflexivity.
  - reflexivity.
  - reflexivity.
Qed.

Lemma safe_eval_expr_keeps_state rt (s : string) (g : globals) :
  snd (safe_eval_expr rt s g) = g.
Proof.
  unfold safe_eval_expr.
  destruct (strip s =? "")%string; [reflexivity |].
  destruct (Parser.parse (strip s)) as [[body] | m]; [| reflexivity].
  apply _eval_keeps_state.
Qed.

(** ** Trimming *)

Lemma lstrip_all_space (s : string) :
  all_chars isspace s = true -> lstrip s = "".
Proof.
  induction s as [| c r IH]; simpl; [reflexivity |].
  destruct (isspace c); simpl; [exact IH | discriminate].
Qed.

Lemma strip_all_space (s : string) :
  all_chars isspace s = true -> strip s = "".
Proof.
  intro H. unfold strip. rewrite (lstrip_all_space s H). reflexivity.
Qed.

(** ** Zero divisors *)

Definition is_zero_value (v : value) : bool :=
  match v with
  | VInt z => (z =? 0)%Z
  | VBool b => negb b
  | VFloat f => is_zero f
  | VComplex re im => is_zero re && is_zero im
  end.

(** The operators that divide. *)
Definition divides (o : operator) : bool :=
  match o with
  | Div | FloorDiv | Mod => true
  | _ => false
  end.

(** Operands for which a division reaches its test of the divisor:
    neither is complex, and an [int] that meets a [float] fits in one. *)
Definition real_operands (a b : value) : bool :=
  negb (is_complex a) && negb (is_complex b)
  && (if is_float a || is_float b
      then match to_float a with Ok _ => true | Raise _ => false end
      else true).

Lemma int_zero_value (v : value) :
  is_complex v = false -> is_float v = false -> is_zero_value v = true ->
  int_of v = 0%Z.
Proof.
  destruct v as [z | [|] | f | re im]; simpl; try discriminate; intros _ _ H.
  - apply Z.eqb_eq. exact H.
  - reflexivity.
Qed.

Lemma float_zero_value (v : value) (f : float) :
  is_complex v = false -> is_zero_value v = true -> to_float v = Ok f ->
  is_zero f = true.
Proof.
  destruct v as [z | [|] | x | re im]; simpl; try discriminate; intros _ Hz H.
  - apply Z.eqb_eq in Hz. subst z. vm_compute in H. injection H as <-. reflexivity.
  - vm_compute in H. injection H as <-. reflexivity.
  - injection H as <-. exact Hz.
Qed.

Lemma zero_divisor_raises rt (op : operator) (f : operator_fn) (a b : value) :
  divides op = true ->
  lookup (OperatorClass op) _ALLOWED_OPERATORS = Some f ->
  is_zero_value b = true ->
  real_operands a b = true ->
  exists m, call2 rt f a b = Raise (ZeroDivisionError m).
Proof.
  intros Hop Hf Hz Hr.
  unfold real_operands in Hr.
  apply andb_prop in Hr as [Hc Hfl]. apply andb_prop in Hc as [Ha Hb].
  apply negb_true_iff in Ha, Hb.
  assert (Hd : forall on_int on_float on_complex,
             (forall x, exists m, on_int x 0%Z = Raise (ZeroDivisionError m)) ->
             (forall x y, is_zero y = true ->
                          exists m, on_float x y = Raise (ZeroDivisionError m)) ->
             exists m, dispatch on_int on_float on_complex a b
                       = Raise (ZeroDivisionError m)).
  { intros on_int on_float on_complex Hi Hff. unfold dispatch.
    rewrite Ha, Hb. simpl.
    destruct (is_float a || is_float b) eqn:E.
    - destruct (to_float a) as [x | e] eqn:Ea; [| discriminate]. simpl.
      destruct (to_float b) as [y | e] eqn:Eb.
      + simpl. apply Hff. eapply float_zero_value; eassumption.
      + exfalso. destruct b as [z | [|] | y | re im]; simpl in *; try discriminate.
        apply Z.eqb_eq in Hz. subst z. vm_compute in Eb. discriminate.
    - apply orb_false_iff in E as [_ Efb].
      rewrite (int_zero_value b Hb Efb Hz). apply Hi. }
  destruct op; try discriminate; simpl in Hf; injection Hf as <-; simpl.
  - unfold truediv. apply Hd.
    + intro x. unfold int_truediv. simpl. eauto.
    + intros x y Hy. unfold float_truediv. rewrite Hy. eauto.
  - unfold mod_. rewrite Ha, Hb. simpl. apply Hd.
    + intro x. unfold int_mod. simpl. eauto.
    + intros x y Hy. unfold float_mod. rewrite Hy. eauto.
  - unfold floordiv. rewrite Ha, Hb. simpl. apply Hd.
    + intro x. unfold int_floordiv. simpl. eauto.
    + intros x y Hy. unfold float_floordiv. rewrite Hy. eauto.
Qed.

(** What [_eval] does at an allowed binary operator whose operands have
    values. *)
Lemma _eval_BinOp rt (op : operator) (f : operator_fn) (l r : expr) (a b : value) :
  lookup (OperatorClass op) _ALLOWED_OPERATORS = Some f ->
  _eval rt l module_globals = (Ok a, module_globals) ->
  _eval rt r module_globals = (Ok b, module_globals) ->
  _eval rt (BinOp l op r) module_globals = (call2 rt f a b, module_globals).
Proof.
  intros Hf Hl Hr. cbn [_eval].
  cbv [mbind read_table subscript raise ret lift contains_key].
  change (allowed_operators module_globals) with _ALLOWED_OPERATORS.
  rewrite Hf. cbn [negb]. rewrite Hl, Hr.
  change (allowed_operators module_globals) with _ALLOWED_OPERATORS.
  rewrite Hf. reflexivity.
Qed.

(** ** How [chatbot_response] reaches the calculator *)

(** A [calc] command that no earlier rule takes: the group of the match is
    evaluated as it stands, and both outcomes are reported. *)
Lemma calc_command_reply rt draw (input expr : string) (g : globals) :
  earlier_rules draw (lower (strip input)) = None ->
  calc_match (lower (strip input)) = Some expr ->
  chatbot_response rt draw input g =
    (Ok (Says (match fst (safe_eval_expr rt expr g) with
               | Ok v => "Result: " ++ str rt v
               | Raise e => "Calculator error: " ++ exn_str e
               end)), g).
Proof.
  intros He Hc. unfold chatbot_response, calculator_rules.
  rewrite He, Hc.
  pose proof (safe_eval_expr_keeps_state rt expr g) as Hs.
  destruct (safe_eval_expr rt expr g) as [[v | e] g']; simpl in *; subst g';
    reflexivity.
Qed.

(** A bare line of the numeric character class that no earlier rule
    takes: carets become [**], a value is reported, a failure is passed
    over to the later rules. *)
Lemma bare_line_reply rt draw (input : string) (g : globals) :
  earlier_rules draw (lower (strip input)) = None ->
  calc_match (lower (strip input)) = None ->
  math_fullmatch (replace_caret (lower (strip input))) = true ->
  chatbot_response rt draw input g =
    (Ok (match fst (safe_eval_expr rt (replace_caret (lower (strip input))) g) with
         | Ok v => Says ("Result: " ++ str rt v)
         | Raise _ => later_rules draw (lower (strip input))
         end), g).
Proof.
  intros He Hc Hm. unfold chatbot_response, calculator_rules.
  rewrite He, Hc, Hm.
  pose proof (safe_eval_expr_keeps_state rt (replace_caret (lower (strip input))) g) as Hs.
  destruct (safe_eval_expr rt (replace_caret (lower (strip input))) g)
    as [[v | e] g']; simpl in *; subst g'; reflexivity.
Qed.

(** ** Powers of a negative base *)


(** ** What the evaluator accepts *)

(** The trees [_eval] has a value or an arithmetic error for: numeric
    constants, and the operators that are keys of [_ALLOWED_OPERATORS]. *)
Fixpoint arithmetic (e : expr) : bool :=
  match e with
  | Constant (CInt _) | Constant (CFloat _) | Constant (CBool _) => true
  | BinOp l op r =>
      contains_key (OperatorClass op) _ALLOWED_OPERATORS
      && arithmetic l && arithmetic r
  | UnaryOp u x =>
      contains_key (UnaryopClass u) _ALLOWED_OPERATORS && arithmetic x
  | _ => false
  end.

Lemma _eval_ok_arithmetic rt (e : expr) :
  forall v, fst (_eval rt e module_globals) = Ok v -> arithmetic e = true.
Proof.
  induction e as [c | id | l IHl op r IHr | u x IHx | f args | x attr];
    intros v H; simpl in H; try discriminate.
  - destruct c; try discriminate; reflexivity.
  - cbv [mbind read_table subscript raise ret lift] in H.
    change (allowed_operators module_globals) with _ALLOWED_OPERATORS in H.
    cbn [arithmetic].
    destruct (contains_key (OperatorClass op) _ALLOWED_OPERATORS);
      [| discriminate].
    cbn [negb] in H.
    pose proof (_eval_keeps_state rt l module_globals) as Sl.
    destruct (_eval rt l module_globals) as [[a | x] g1]; [| discriminate].
    simpl in Sl. subst g1. rewrite (IHl a eq_refl).
    pose proof (_eval_keeps_state rt r module_globals) as Sr.
    destruct (_eval rt r module_globals) as [[b | x] g2]; [| discriminate].
    rewrite (IHr b eq_refl). reflexivity.
  - cbv [mbind read_table subscript raise ret lift] in H.
    change (allowed_operators module_globals) with _ALLOWED_OPERATORS in H.
    cbn [arithmetic].
    destruct (contains_key (UnaryopClass u) _ALLOWED_OPERATORS);
      [| discriminate].
    cbn [negb] in H.
    destruct (_eval rt x module_globals) as [[a | y] g1]; [| discriminate].
    rewrite (IHx a eq_refl). reflexivity.
Qed.

(** The tokens of arithmetic: an [int] or [float] literal, [True] or
    [False], one of [+ - * / // % **], a parenthesis, a line end. *)
Definition arithmetic_token (t : Lexer.token) : bool :=
  match t with
  | Lexer.TNum c => arithmetic (Constant c)
  | Lexer.TName n => (n =? "True")%string || (n =? "False")%string
  | Lexer.TOp o => Lexer.mem o ["+"; "-"; "*"; "/"; "//"; "%"; "**"; "("; ")"]
  | Lexer.TNewline => true
  | _ => false
  end.

(** ** The shape of a token list that derives a tree *)

Section Shapes.

Import Lexer Parser Grammar.
Local Open Scope list_scope.

Lemma prefix_op_symbol (o : string) (u : unaryop) :
  prefix_op o = Some u ->
  (o = "+" /\ u = UAdd) \/ (o = "-" /\ u = USub) \/ (o = "~" /\ u = Invert).
Proof.
  unfold prefix_op. intro H.
  destruct (o =? "+")%string eqn:E1;
    [apply String.eqb_eq in E1; injection H as <-; auto |].
  destruct (o =? "-")%string eqn:E2;
    [apply String.eqb_eq in E2; injection H as <-; auto |].
  destruct (o =? "~")%string eqn:E3; [| discriminate].
  apply String.eqb_eq in E3. injection H as <-. auto.
Qed.

(** The symbol of each binary operator. *)
Definition symbol_of (op : operator) : string :=
  match op with
  | Add => "+" | Sub => "-" | Mult => "*" | MatMult => "@" | Div => "/"
  | Mod => "%" | Pow => "**" | LShift => "<<" | RShift => ">>"
  | BitOr => "|" | BitXor => "^" | BitAnd => "&" | FloorDiv => "//"
  end.

Lemma binop_at_symbol (lvl : nat) (o : string) (op : operator) :
  binop_at lvl o = Some op -> o = symbol_of op /\ op <> Pow.
Proof.
  intro H. pose proof (binop_at_level _ _ _ H) as Hl.
  destruct lvl as [| [| [| [| [| [| lvl]]]]]]; [.. | lia]; simpl in H;
    repeat match type of H with
           | (if (?a =? ?b)%string then _ else _) = _ =>
               let E := fresh "E" in
               destruct (a =? b)%string eqn:E;
               [apply String.eqb_eq in E; subst; injection H as <-;
                split; [reflexivity | discriminate] |]
           end; discriminate.
Qed.






(** A token that can end an operand. *)
Definition ends_operand_token (t : token) : bool :=
  match t with
  | TNum _ | TName _ | TStr _ => true
  | TOp o => (o =? ")")%string
  | _ => false
  end.

Fixpoint ends_operand (ts : list token) : bool :=
  match ts with
  | [] => false
  | [t] => ends_operand_token t
  | _ :: r => ends_operand r
  end.

Lemma ends_operand_app (a b : list token) :
  ends_operand b = true -> ends_operand (a ++ b) = true.
Proof.
  intro H. induction a as [| t a IH]; [exact H |].
  simpl. destruct (a ++ b) eqn:E; [| exact IH].
  destruct a; simpl in E; [rewrite E in H; discriminate | discriminate].
Qed.

Lemma ends_operand_app_or (a b : list token) :
  ends_operand a = true -> b = [] \/ ends_operand b = true ->
  ends_operand (a ++ b) = true.
Proof.
  intros Ha [-> | Hb]; [rewrite app_nil_r; exact Ha | apply ends_operand_app; exact Hb].
Qed.

Lemma ends_operand_cons (t : token) (r : list token) :
  ends_operand r = true -> ends_operand (t :: r) = true.
Proof.
  intro H. apply (ends_operand_app [t] r H).
Qed.

Lemma ends_operand_cons_or (t : token) (r : list token) :
  ends_operand_token t = true -> r = [] \/ ends_operand r = true ->
  ends_operand (t :: r) = true.
Proof.
  intros Ht H. apply (ends_operand_app_or [t] r); assumption.
Qed.

Lemma ends_operand_strings (more : list token) :
  Forall (fun t => exists s, t = TStr s) more ->
  forall b, ends_operand (TStr b :: more) = true.
Proof.
  induction 1 as [| t more [s ->] _ IH]; intro b; [reflexivity |].
  apply ends_operand_cons. apply IH.
Qed.

Create HintDb ends discriminated.
#[local] Hint Resolve ends_operand_app ends_operand_cons ends_operand_app_or
  ends_operand_cons_or ends_operand_strings : ends.


Lemma arithmetic_BinOp (l r : expr) (op : operator) :
  arithmetic (BinOp l op r) = true ->
  contains_key (OperatorClass op) _ALLOWED_OPERATORS = true
  /\ arithmetic l = true /\ arithmetic r = true.
Proof.
  cbn [arithmetic]. rewrite !andb_true_iff. tauto.
Qed.

Lemma derives_arithmetic_tokens :
  (forall lvl used e, derives lvl used e ->
     arithmetic e = true -> forallb arithmetic_token used = true)
  /\ (forall lvl l ts e, chain lvl l ts e ->
        arithmetic e = true ->
        arithmetic l = true /\ forallb arithmetic_token ts = true)
  /\ (forall a ts e, trailers a ts e -> arithmetic e = true -> ts = [] /\ a = e)
  /\ (forall ts args, arguments ts args -> True).
Proof.
  apply grammar_ind.
  - (* D_level *)
    intros lvl t0 l ts e _ _ IH1 _ IH2 He.
    destruct (IH2 He) as [Hl Hts]. rewrite forallb_app, (IH1 Hl), Hts. reflexivity.
  - (* D_prefix *)
    intros o u ts e Hp _ IH He.
    cbn [arithmetic] in He. apply andb_prop in He as [Hu He].
    cbn [forallb]. rewrite (IH He), andb_true_r.
    destruct (prefix_op_symbol _ _ Hp) as [[-> ->] | [[-> ->] | [-> ->]]];
      [reflexivity | reflexivity | discriminate].
  - (* D_factor *) intros ts e _ IH He. exact (IH He).
  - (* D_pow *)
    intros tb b te x _ IH1 _ IH2 He.
    apply arithmetic_BinOp in He as (_ & Hb & Hx).
    rewrite forallb_app. cbn [forallb]. rewrite (IH1 Hb), (IH2 Hx). reflexivity.
  - (* D_power *) intros ts e _ IH He. exact (IH He).
  - (* D_primary *)
    intros ta a ts e _ IH1 _ IH2 He.
    destruct (IH2 He) as [-> ->]. rewrite app_nil_r. exact (IH1 He).
  - (* D_num *)
    intros c He. cbn [forallb arithmetic_token]. rewrite He. reflexivity.
  - (* D_name *)
    intros n He. cbn [forallb arithmetic_token]. unfold atom_of_name in He.
    destruct (n =? "True")%string; [reflexivity |].
    destruct (n =? "False")%string; [reflexivity |].
    destruct (n =? "None")%string; discriminate.
  - (* D_str *) intros b more _ He. discriminate.
  - (* D_paren *)
    intros ts e _ IH He.
    cbn [forallb]. rewrite forallb_app, (IH He). reflexivity.
  - (* C_done *) intros lvl l He. split; [exact He | reflexivity].
  - (* C_more *)
    intros lvl l o op tr r ts e Ho _ IH1 _ IH2 He.
    destruct (IH2 He) as [Hb Hts].
    apply arithmetic_BinOp in Hb as (Hop & Hl & Hr).
    split; [exact Hl |].
    cbn [forallb]. rewrite forallb_app, (IH1 Hr), Hts.
    destruct (binop_at_symbol _ _ _ Ho) as [-> _].
    destruct op; try discriminate; reflexivity.
  - (* T_done *) intros a _. split; reflexivity.
  - (* T_attr *)
    intros a n ts e _ IH He. destruct (IH He) as [_ <-]. discriminate.
  - (* T_call *)
    intros a targs args ts e _ _ _ IH He. destruct (IH He) as [_ <-]. discriminate.
  - trivial.
  - trivial.
  - trivial.
Qed.

End Shapes.

(** ** [ast.parse] against the grammar *)

Section ParseSpec.

Import Lexer Parser Grammar.
Local Open Scope list_scope.



(** The parse of a string is a tree exactly when the tokens of its
    logical line derive the tree. *)
Lemma parse_sound (s : string) (e : expr) :
  Parser.parse s = inl (Expression e) ->
  exists s' used nl,
    skip_blank_lines false 0 s = Some s'
    /\ tokens_of s' = Tokens (used ++ nl)
    /\ only_newlines nl = true
    /\ derives 0 used e.
Proof.
  unfold Parser.parse. intro H.
  destruct (skip_blank_lines false 0 s) as [s' |] eqn:Hk; [| discriminate].
  destruct (tokens_of s') as [ts | m] eqn:Ht; [| discriminate].
  destruct (parse_binary (fuel_for ts) 0 ts) as [x rest | m] eqn:E; [| discriminate].
  destruct (only_newlines rest) eqn:Hnl; [| discriminate].
  injection H as ->.
  destruct (sound_at_all (fuel_for ts)) as (Hbin & _).
  destruct (Hbin 0 ts e rest (Nat.le_0_l 6) E) as (used & -> & D).
  exists s', used, rest. repeat split; first [assumption | reflexivity].
Qed.










End ParseSpec.

(** ** Helpers for the properties below *)



(** The characters the specification's tokenizer admits. *)
Definition spec_char (c : ascii) : bool :=
  isspace c || isdigit c || is_char 46 c
  || is_char 43 c || is_char 45 c || is_char 42 c || is_char 47 c
  || is_char 37 c || is_char 40 c || is_char 41 c.

(** * The properties of the specification *)

(** C1, as the code has it.  The evaluator admits by the kind of node,
    not by character.  Whenever [evaluate] returns a value, the input
    parsed to a tree made only of numeric constants, the binary operators
    [+ - * / // % **] and unary [+ -], and every token of the input is a
    numeric literal, [True] or [False], one of those operators, a
    parenthesis or a line end: an input with a name, a call, an
    attribute, a string literal, a comma or any other token fails.
    [evaluate("__import__('os')")], [evaluate("a+1")] and
    [evaluate("1;2")] fail with ValueError. *)
Theorem C1_only_arithmetic_is_evaluated rt :
  (exists m, evaluate rt "__import__('os')" = Raise (ValueError m))
  /\ (exists m, evaluate rt "a+1" = Raise (ValueError m))
  /\ (exists m, evaluate rt "1;2" = Raise (ValueError m))
  /\ forall (s : string) (v : value),
       evaluate rt s = Ok v ->
       exists (s' : string) (ts : list Lexer.token) (e : expr),
         Parser.skip_blank_lines false 0 (strip s) = Some s'
         /\ Lexer.tokens_of s' = Lexer.Tokens ts
         /\ forallb arithmetic_token ts = true
         /\ Parser.parse (strip s) = inl (Expression e)
         /\ arithmetic e = true.
Proof.
  split; [eexists; reflexivity |].
  split; [eexists; reflexivity |].
  split; [eexists; reflexivity |].
  intros s v H. unfold evaluate, safe_eval_expr in H.
  destruct (strip s =? "")%string; [discriminate |].
  destruct (Parser.parse (strip s)) as [[e] | m] eqn:E; [| discriminate].
  simpl in H. pose proof (_eval_ok_arithmetic rt e v H) as Ha.
  destruct (parse_sound _ _ E) as (s' & used & nl & Hk & Ht & Hnl & D).
  exists s', (used ++ nl)%list, e. repeat split; try assumption.
  rewrite forallb_app.
  rewrite (proj1 derives_arithmetic_tokens 0 used e D Ha). simpl.
  clear - Hnl. induction nl as [| t nl IH]; [reflexivity |].
  destruct t; try discriminate. simpl. apply IH. exact Hnl.
Qed.

Lemma C1_only_arithmetic_witness :
  exists (s' : string) (ts : list Lexer.token) (e : expr),
    Parser.skip_blank_lines false 0 (strip "2+3*4") = Some s'
    /\ Lexer.tokens_of s' = Lexer.Tokens ts
    /\ forallb arithmetic_token ts = true
    /\ Parser.parse (strip "2+3*4") = inl (Expression e)
    /\ arithmetic e = true.
Proof.
  apply (proj2 (proj2 (proj2 (C1_only_arithmetic_is_evaluated no_libm)))
           "2+3*4" (VInt 14)).
  reflexivity.
Defined.

(** C1 as stated fails: [1_0] holds an underscore and [1e2] a letter,
    characters outside the set, and both evaluate to a number. *)
Lemma C1_only_arithmetic_counterexample :
  all_chars spec_char "1_0" = false
  /\ evaluate no_libm "1_0" = Ok (VInt 10)
  /\ all_chars spec_char "1e2" = false
  /\ evaluate no_libm "1e2" = Ok (VFloat 100).
Proof. repeat split. Qed.



(** C3, as the code has it.  A division, floor division or modulo by a
    zero divisor raises ZeroDivisionError whenever the operands are [int],
    [bool] or [float] and an [int] dividend that meets a [float] divisor
    fits in a float; [evaluate("1/0")] and [evaluate("5%0")] do so. *)
Theorem C3_zero_divisor_raises rt :
  (exists m, evaluate rt "1/0" = Raise (ZeroDivisionError m))
  /\ (exists m, evaluate rt "5%0" = Raise (ZeroDivisionError m))
  /\ forall (op : operator) (l r : expr) (a b : value),
       divides op = true ->
       _eval rt l module_globals = (Ok a, module_globals) ->
       _eval rt r module_globals = (Ok b, module_globals) ->
       is_zero_value b = true ->
       real_operands a b = true ->
       exists m, _eval rt (BinOp l op r) module_globals
                 = (Raise (ZeroDivisionError m), module_globals).
Proof.
  split; [eexists; reflexivity |].
  split; [eexists; reflexivity |].
  intros op l r a b Hop Hl Hr Hz Hreal.
  assert (Hf : exists f, lookup (OperatorClass op) _ALLOWED_OPERATORS = Some f).
  { destruct op; try discriminate; eexists; reflexivity. }
  destruct Hf as [f Hf].
  rewrite (_eval_BinOp rt op f l r a b Hf Hl Hr).
  destruct (zero_divisor_raises rt op f a b Hop Hf Hz Hreal) as [m Hm].
  exists m. rewrite Hm. reflexivity.
Qed.

Lemma C3_zero_divisor_witness :
  exists m, _eval no_libm (BinOp (Constant (CFloat 7.5)) FloorDiv (Constant (CBool false)))
              module_globals
            = (Raise (ZeroDivisionError m), module_globals).
Proof.
  apply (proj2 (proj2 (C3_zero_divisor_raises no_libm))
           FloorDiv (Constant (CFloat 7.5)) (Constant (CBool false))
           (VFloat 7.5) (VBool false));
    reflexivity.
Defined.

(** C3 as stated fails: the divisor of [10**400/0.0] is zero, and the call
    raises OverflowError, because the dividend is converted to a float
    before the divisor is looked at. *)
Lemma C3_zero_divisor_counterexample :
  evaluate no_libm "10**400/0.0"
  = Raise (OverflowError "int too large to convert to float").
Proof. vm_compute. reflexivity. Qed.



(** C5.  An input that is empty or holds only white space fails with the
    ValueError "Empty expression". *)
Theorem C5_blank_input rt (s : string) :
  all_chars isspace s = true ->
  evaluate rt s = Raise (ValueError "Empty expression").
Proof.
  intro H. unfold evaluate, safe_eval_expr.
  rewrite (strip_all_space s H). reflexivity.
Qed.

Lemma C5_blank_input_witness :
  evaluate no_libm "" = Raise (ValueError "Empty expression")
  /\ evaluate no_libm "   " = Raise (ValueError "Empty expression").
Proof.
  split; apply C5_blank_input; reflexivity.
Defined.









(** C9.  An evaluation leaves the module state as it found it, so the
    same string evaluated again, after the first evaluation, yields the
    same number or the same error. *)
Theorem C9_evaluation_is_repeatable rt (s : string) (g : globals) :
  snd (safe_eval_expr rt s g) = g
  /\ safe_eval_expr rt s (snd (safe_eval_expr rt s g)) = safe_eval_expr rt s g.
Proof.
  pose proof (safe_eval_expr_keeps_state rt s g) as H.
  split; [exact H | rewrite H; reflexivity].
Qed.

(** C10.  The caret becomes [**] on a bare line only: the bare line [2^3]
    is answered "Result: 8"; [calc 2^3] hands [2^3] to the evaluator as it
    stands, [ast.BitXor] is not a key of [_ALLOWED_OPERATORS], so [_eval]
    refuses the node whatever its operands, and the reply is a calculator
    error. *)
Theorem C10_caret_on_bare_lines_only rt draw :
  chatbot_response rt draw "2^3" module_globals
  = (Ok (Says "Result: 8"), module_globals)
  /\ calc_match (lower (strip "calc 2^3")) = Some "2^3"
  /\ Parser.parse "2^3"
     = inl (Expression (BinOp (Constant (CInt 2)) BitXor (Constant (CInt 3))))
  /\ lookup (OperatorClass BitXor) _ALLOWED_OPERATORS = None
  /\ (forall l r : expr,
        _eval rt (BinOp l BitXor r) module_globals
        = (Raise (ValueError "Operator <class 'ast.BitXor'> not supported"),
           module_globals))
  /\ chatbot_response rt draw "calc 2^3" module_globals
     = (Ok (Says "Calculator error: Operator <class 'ast.BitXor'> not supported"),
        module_globals).
Proof.
  split.
  - rewrite (bare_line_reply rt draw "2^3" module_globals); reflexivity.
  - split; [reflexivity |]. split; [reflexivity |]. split; [reflexivity |].
    split; [intros; reflexivity |].
    rewrite (calc_command_reply rt draw "calc 2^3" "2^3" module_globals);
      reflexivity.
Qed.

(** * Further properties of the evaluator and of the replies *)

(** ** Trimming and lower-casing *)

Lemma rstrip_all_space (s : string) :
  all_chars isspace s = true -> rstrip s = "".
Proof.
  induction s as [| c r IH]; simpl; [reflexivity |].
  intro H. apply andb_prop in H as [Hc Hr].
  rewrite (IH Hr), Hc. reflexivity.
Qed.

Lemma lstrip_app_space (pre s : string) :
  all_chars isspace pre = true -> lstrip (pre ++ s) = lstrip s.
Proof.
  induction pre as [| c r IH]; simpl; [reflexivity |].
  intro H. apply andb_prop in H as [Hc Hr]. rewrite Hc. exact (IH Hr).
Qed.

Lemma rstrip_app_space (s post : string) :
  all_chars isspace post = true -> rstrip (s ++ post) = rstrip s.
Proof.
  intro H. induction s as [| c r IH]; simpl.
  - exact (rstrip_all_space post H).
  - rewrite IH. reflexivity.
Qed.

Lemma strip_app_space (s post : string) :
  all_chars isspace post = true -> strip (s ++ post) = strip s.
Proof.
  intro H. unfold strip. induction s as [| c r IH].
  - simpl. rewrite (lstrip_all_space post H). reflexivity.
  - simpl. destruct (isspace c); [exact IH |].
    exact (rstrip_app_space (String c r) post H).
Qed.

Lemma strip_outer_space (pre s post : string) :
  all_chars isspace pre = true -> all_chars isspace post = true ->
  strip (pre ++ s ++ post) = strip s.
Proof.
  intros Hpre Hpost. unfold strip at 1.
  rewrite (lstrip_app_space pre (s ++ post) Hpre).
  exact (strip_app_space s post Hpost).
Qed.

Ltac each_char c :=
  destruct c as [[|] [|] [|] [|] [|] [|] [|] [|]]; vm_compute; reflexivity.

Lemma lower_char_idem (c : ascii) : lower_char (lower_char c) = lower_char c.
Proof. each_char c. Qed.

Lemma isspace_lower_char (c : ascii) : isspace (lower_char c) = isspace c.
Proof. each_char c. Qed.

Lemma lower_idem (s : string) : lower (lower s) = lower s.
Proof.
  induction s as [| c r IH]; simpl; [reflexivity |].
  rewrite lower_char_idem, IH. reflexivity.
Qed.

Lemma lstrip_lower (s : string) : lstrip (lower s) = lower (lstrip s).
Proof.
  induction s as [| c r IH]; simpl; [reflexivity |].
  rewrite isspace_lower_char. destruct (isspace c); [exact IH | reflexivity].
Qed.

Lemma rstrip_lower (s : string) : rstrip (lower s) = lower (rstrip s).
Proof.
  induction s as [| c r IH]; simpl; [reflexivity |].
  rewrite IH, isspace_lower_char.
  destruct (rstrip r); simpl; [destruct (isspace c) |]; reflexivity.
Qed.

Lemma strip_lower (s : string) : strip (lower s) = lower (strip s).
Proof.
  unfold strip. rewrite lstrip_lower. apply rstrip_lower.
Qed.

(** X1.  [safe_eval_expr] ignores white space around the expression:
    spaces, tabs and line ends before and after it change neither the
    value nor the error. *)
Theorem evaluate_ignores_outer_space rt (pre s post : string) :
  all_chars isspace pre = true ->
  all_chars isspace post = true ->
  forall g, safe_eval_expr rt (pre ++ s ++ post) g = safe_eval_expr rt s g.
Proof.
  intros Hpre Hpost g. unfold safe_eval_expr.
  rewrite (strip_outer_space pre s post Hpre Hpost). reflexivity.
Qed.

Lemma evaluate_ignores_outer_space_witness :
  safe_eval_expr no_libm (" " ++ "7 // 2" ++ "  ") module_globals
  = safe_eval_expr no_libm "7 // 2" module_globals.
Proof.
  apply (evaluate_ignores_outer_space no_libm " " "7 // 2" "  "); reflexivity.
Defined.

(** X2.  [chatbot_response] reads its input without regard to letter
    case or to white space around it: the input in lower case, and the
    input with white space added before and after, get the reply of the
    input itself. *)
Theorem reply_ignores_case_and_outer_space rt draw (pre input post : string) :
  all_chars isspace pre = true ->
  all_chars isspace post = true ->
  forall g,
    chatbot_response rt draw (lower input) g = chatbot_response rt draw input g
    /\ chatbot_response rt draw (pre ++ input ++ post) g
       = chatbot_response rt draw input g.
Proof.
  intros Hpre Hpost g. unfold chatbot_response. split.
  - rewrite strip_lower, lower_idem. reflexivity.
  - rewrite (strip_outer_space pre input post Hpre Hpost). reflexivity.
Qed.

Lemma reply_ignores_case_and_outer_space_witness :
  chatbot_response no_libm 0 (lower "CALC 0X1F + 1") module_globals
  = chatbot_response no_libm 0 "CALC 0X1F + 1" module_globals
  /\ chatbot_response no_libm 0 ("  " ++ "CALC 0X1F + 1" ++ " ") module_globals
     = chatbot_response no_libm 0 "CALC 0X1F + 1" module_globals.
Proof.
  apply (reply_ignores_case_and_outer_space no_libm 0 "  " "CALC 0X1F + 1" " ");
    reflexivity.
Defined.

(** ** [_eval] without the state *)

(** [_eval] on the module as loaded, in terms of results alone. *)
Definition value_of (rt : runtime) (e : expr) : result value :=
  fst (_eval rt e module_globals).

Lemma _eval_value_of rt (e : expr) :
  _eval rt e module_globals = (value_of rt e, module_globals).
Proof.
  unfold value_of. pose proof (_eval_keeps_state rt e module_globals) as H.
  destruct (_eval rt e module_globals) as [r g]. simpl in *. subst g. reflexivity.
Qed.

Lemma value_of_BinOp rt (l r : expr) (op : operator) :
  value_of rt (BinOp l op r) =
    match lookup (OperatorClass op) _ALLOWED_OPERATORS with
    | None =>
        Raise (ValueError ("Operator " ++ class_str (OperatorClass op)
                           ++ " not supported"))
    | Some f =>
        a <- value_of rt l ;; b <- value_of rt r ;; call2 rt f a b
    end.
Proof.
  unfold value_of at 1. cbn [_eval].
  cbv [mbind read_table subscript raise ret lift contains_key].
  change (allowed_operators module_globals) with _ALLOWED_OPERATORS.
  destruct (lookup (OperatorClass op) _ALLOWED_OPERATORS) as [f |] eqn:Hf;
    cbn [negb]; [| reflexivity].
  rewrite (_eval_value_of rt l).
  destruct (value_of rt l) as [a | e]; [| reflexivity].
  rewrite (_eval_value_of rt r).
  destruct (value_of rt r) as [b | e]; [| reflexivity].
  change (allowed_operators module_globals) with _ALLOWED_OPERATORS.
  rewrite Hf. reflexivity.
Qed.

Lemma value_of_UnaryOp rt (u : unaryop) (x : expr) :
  value_of rt (UnaryOp u x) =
    match lookup (UnaryopClass u) _ALLOWED_OPERATORS with
    | None =>
        Raise (ValueError ("Unary operator " ++ class_str (UnaryopClass u)
                           ++ " not supported"))
    | Some f => a <- value_of rt x ;; call1 f a
    end.
Proof.
  unfold value_of at 1. cbn [_eval].
  cbv [mbind read_table subscript raise ret lift contains_key].
  change (allowed_operators module_globals) with _ALLOWED_OPERATORS.
  destruct (lookup (UnaryopClass u) _ALLOWED_OPERATORS) as [f |] eqn:Hf;
    cbn [negb]; [| reflexivity].
  rewrite (_eval_value_of rt x).
  destruct (value_of rt x) as [a | e]; [| reflexivity].
  change (allowed_operators module_globals) with _ALLOWED_OPERATORS.
  rewrite Hf. reflexivity.
Qed.

Lemma evaluate_parsed rt (s : string) (e : expr) :
  Parser.parse (strip s) = inl (Expression e) ->
  evaluate rt s = value_of rt e.
Proof.
  intro H. unfold evaluate, safe_eval_expr.
  destruct (String.eqb_spec (strip s) "") as [E | _].
  - rewrite E in H. discriminate H.
  - rewrite H. reflexivity.
Qed.

(** ** Which error is reported *)

(** X3.  [_eval] tests the operator of a node before it looks at the
    operands, and evaluates the left operand before the right one.  So a
    node whose operator is not a key of [_ALLOWED_OPERATORS] fails with
    "Operator ... not supported" whatever its operands are or raise;
    under an allowed operator an error of the left operand is the one
    reported, and an error of the right operand is reported only when the
    left operand has a value. *)
Theorem first_error_is_reported rt (l r : expr) (op : operator) :
  (contains_key (OperatorClass op) _ALLOWED_OPERATORS = false ->
   value_of rt (BinOp l op r)
   = Raise (ValueError ("Operator " ++ class_str (OperatorClass op)
                        ++ " not supported")))
  /\ (contains_key (OperatorClass op) _ALLOWED_OPERATORS = true ->
      forall e, value_of rt l = Raise e -> value_of rt (BinOp l op r) = Raise e)
  /\ (contains_key (OperatorClass op) _ALLOWED_OPERATORS = true ->
      forall a e, value_of rt l = Ok a -> value_of rt r = Raise e ->
                  value_of rt (BinOp l op r) = Raise e).
Proof.
  rewrite value_of_BinOp. unfold contains_key.
  destruct (lookup (OperatorClass op) _ALLOWED_OPERATORS) as [f |].
  - split; [discriminate |]. split.
    + intros _ e Hl. rewrite Hl. reflexivity.
    + intros _ a e Hl Hr. rewrite Hl, Hr. reflexivity.
  - split; [reflexivity |]. split; discriminate.
Qed.

Lemma first_error_is_reported_witness :
  evaluate no_libm "(1/0) ^ x"
  = Raise (ValueError "Operator <class 'ast.BitXor'> not supported")
  /\ evaluate no_libm "1/0 + x" = Raise (ZeroDivisionError "division by zero")
  /\ evaluate no_libm "1 + x/0"
     = Raise (ValueError "Unsupported expression type: <class 'ast.Name'>").
Proof.
  split; [| split].
  - rewrite (evaluate_parsed no_libm "(1/0) ^ x" _ eq_refl).
    apply (proj1 (first_error_is_reported no_libm _ _ BitXor)). reflexivity.
  - rewrite (evaluate_parsed no_libm "1/0 + x" _ eq_refl).
    apply (proj1 (proj2 (first_error_is_reported no_libm _ _ Add))); reflexivity.
  - rewrite (evaluate_parsed no_libm "1 + x/0" _ eq_refl).
    apply (proj2 (proj2 (first_error_is_reported no_libm _ _ Add)) eq_refl (VInt 1)).
    + reflexivity.
    + apply (proj1 (proj2 (first_error_is_reported no_libm _ _ Div))); reflexivity.
Defined.

(** ** Integer arithmetic is exact *)





(** X5.  For operands with integer values [a] and [b <> 0], the
    remainder [a % b] has the sign of the divisor and is smaller than it
    in size, and quotient and remainder fit together:
    [(a // b) * b + a % b] evaluates to [a]. *)
Theorem remainder_completes_quotient rt (l r : expr) (a b : Z) :
  value_of rt l = Ok (VInt a) ->
  value_of rt r = Ok (VInt b) ->
  b <> 0%Z ->
  exists m : Z,
    value_of rt (BinOp l Mod r) = Ok (VInt m)
    /\ (0 < b -> 0 <= m < b)%Z
    /\ (b < 0 -> b < m <= 0)%Z
    /\ value_of rt (BinOp (BinOp (BinOp l FloorDiv r) Mult r) Add (BinOp l Mod r))
       = Ok (VInt a).
Proof.
  intros Hl Hr Hb. exists (a mod b)%Z.
  assert (Hm : value_of rt (BinOp l Mod r) = Ok (VInt (a mod b))).
  { rewrite value_of_BinOp, Hl, Hr. simpl.
    unfold mod_, dispatch, int_mod. simpl.
    destruct (Z.eqb_spec b 0); [contradiction | reflexivity]. }
  assert (Hq : value_of rt (BinOp l FloorDiv r) = Ok (VInt (a / b))).
  { rewrite value_of_BinOp, Hl, Hr. simpl.
    unfold floordiv, dispatch, int_floordiv. simpl.
    destruct (Z.eqb_spec b 0); [contradiction | reflexivity]. }
  split; [exact Hm |].
  split; [intro Hs; apply Z.mod_pos_bound; exact Hs |].
  split; [intro Hs; apply Z.mod_neg_bound; exact Hs |].
  rewrite value_of_BinOp, Hm. simpl.
  rewrite value_of_BinOp, Hq, Hr. simpl.
  unfold add, dispatch. simpl. f_equal. f_equal.
  pose proof (Z.div_mod a b Hb). lia.
Qed.

Lemma remainder_completes_quotient_witness :
  exists m : Z,
    value_of no_libm (BinOp (Constant (CInt (-7))) Mod (Constant (CInt 2)))
    = Ok (VInt m)
    /\ (0 < 2 -> 0 <= m < 2)%Z
    /\ (2 < 0 -> 2 < m <= 0)%Z
    /\ value_of no_libm
         (BinOp (BinOp (BinOp (Constant (CInt (-7))) FloorDiv (Constant (CInt 2)))
                       Mult (Constant (CInt 2)))
                Add (BinOp (Constant (CInt (-7))) Mod (Constant (CInt 2))))
       = Ok (VInt (-7)).
Proof.
  apply (remainder_completes_quotient no_libm
           (Constant (CInt (-7))) (Constant (CInt 2)) (-7)%Z 2%Z);
    [reflexivity | reflexivity | discriminate].
Defined.

(** X6.  True division never returns an [int]: whatever the operands,
    a value of [l / r] is a [float] or a [complex], so [4/2] is [2.0]. *)
Theorem true_division_leaves_the_integers rt (l r : expr) (v : value) :
  value_of rt (BinOp l Div r) = Ok v ->
  is_float v || is_complex v = true.
Proof.
  rewrite value_of_BinOp. simpl.
  destruct (value_of rt l) as [a | e]; [| discriminate].
  destruct (value_of rt r) as [b | e]; [| discriminate]. simpl.
  unfold truediv, dispatch.
  destruct (is_complex a || is_complex b).
  - destruct (to_complex a) as [x | e]; [| discriminate].
    destruct (to_complex b) as [y | e]; [| discriminate]. simpl.
    unfold complex_truediv. destruct (c_quot x y); [| discriminate].
    intro H. injection H as <-. reflexivity.
  - destruct (is_float a || is_float b).
    + destruct (to_float a) as [x | e]; [| discriminate].
      destruct (to_float b) as [y | e]; [| discriminate]. simpl.
      unfold float_truediv. destruct (is_zero y); [discriminate |].
      intro H. injection H as <-. reflexivity.
    + unfold int_truediv. destruct (int_of b =? 0)%Z; [discriminate |].
      destruct (is_infinity _); [discriminate |].
      intro H. injection H as <-. reflexivity.
Qed.

Lemma true_division_leaves_the_integers_witness :
  value_of no_libm (BinOp (Constant (CInt 4)) Div (Constant (CInt 2)))
  = Ok (VFloat 2)
  /\ is_float (VFloat 2) || is_complex (VFloat 2) = true.
Proof.
  assert (H : value_of no_libm (BinOp (Constant (CInt 4)) Div (Constant (CInt 2)))
              = Ok (VFloat 2)) by (vm_compute; reflexivity).
  split; [exact H |].
  exact (true_division_leaves_the_integers no_libm _ _ _ H).
Defined.

(** ** [chatbot_response] always answers *)

Lemma chatbot_response_returns rt draw (input : string) (g : globals) :
  exists r : response, chatbot_response rt draw input g = (Ok r, g).
Proof.
  unfold chatbot_response.
  destruct (earlier_rules draw (lower (strip input))) as [r |];
    [exists r; reflexivity |].
  unfold calculator_rules.
  destruct (calc_match (lower (strip input))) as [expr |].
  - pose proof (safe_eval_expr_keeps_state rt expr g) as Hs.
    destruct (safe_eval_expr rt expr g) as [[v | e] g']; simpl in Hs; subst g';
      eexists; reflexivity.
  - destruct (math_fullmatch (replace_caret (lower (strip input))));
      [| eexists; reflexivity].
    pose proof (safe_eval_expr_keeps_state rt
                  (replace_caret (lower (strip input))) g) as Hs.
    destruct (safe_eval_expr rt (replace_caret (lower (strip input))) g)
      as [[v | e] g']; simpl in Hs; subst g'; eexists; reflexivity.
Qed.

(** X7.  [chatbot_response] returns a reply for every input and leaves
    the module state as it found it: no exception of the evaluator gets
    past the two [try] blocks of the calculator rules, whatever the table
    of operators holds.  Asked again, it gives the same reply for the
    same draw. *)
Theorem reply_is_always_given rt draw (input : string) (g : globals) :
  exists r : response,
    chatbot_response rt draw input g = (Ok r, g)
    /\ chatbot_response rt draw input (snd (chatbot_response rt draw input g))
       = (Ok r, g).
Proof.
  destruct (chatbot_response_returns rt draw input g) as [r H].
  exists r. rewrite H. split; [reflexivity | exact H].
Qed.

(** ** Lines of the numeric character class *)









(** ** Alternatives that never decide *)

Lemma search_words_from_app (ws1 ws2 : list string) (s : string) :
  forall prev,
    search_words_from prev (ws1 ++ ws2) s
    = search_words_from prev ws1 s || search_words_from prev ws2 s.
Proof.
  induction s as [| c r IH]; intro prev; cbn [search_words_from].
  - rewrite existsb_app. destruct prev; simpl; [reflexivity |].
    destruct (existsb _ ws1), (existsb _ ws2); reflexivity.
  - rewrite IH, existsb_app.
    destruct prev, (existsb (fun w => word_at w (String c r)) ws1),
      (existsb (fun w => word_at w (String c r)) ws2),
      (search_words_from (is_word c) ws1 r),
      (search_words_from (is_word c) ws2 r); reflexivity.
Qed.

(** A text that ends with a character which is not a word character. *)
Fixpoint ends_outside_word (u : string) : bool :=
  match u with
  | EmptyString => false
  | String a EmptyString => negb (is_word a)
  | String _ u' => ends_outside_word u'
  end.

Lemma word_at_after (u w : string) :
  ends_outside_word u = true ->
  forall s prev, word_at (u ++ w) s = true ->
                 search_words_from prev [w] s = true.
Proof.
  intro Hu. induction u as [| a u IH]; [discriminate |].
  intros s prev H. unfold word_at in H.
  destruct s as [| b s]; [discriminate |].
  cbn [append startswith length drop] in H.
  apply andb_prop in H as [Hst Hbd]. apply andb_prop in Hst as [Hab Hst].
  apply Ascii.eqb_eq in Hab. subst b.
  cbn [search_words_from]. apply orb_true_iff. right.
  destruct u as [| a' u'].
  - simpl in Hu. simpl in Hst, Hbd.
    destruct s as [| c r]; cbn [search_words_from].
    + apply negb_true_iff in Hu. rewrite Hu. simpl.
      unfold word_at. rewrite Hst, Hbd. reflexivity.
    + apply negb_true_iff in Hu. rewrite Hu. simpl.
      unfold word_at. rewrite Hst, Hbd. reflexivity.
  - apply IH; [exact Hu |]. unfold word_at. rewrite Hst, Hbd. reflexivity.
Qed.

Lemma search_words_after (u w : string) :
  ends_outside_word u = true ->
  forall s prev, search_words_from prev [u ++ w] s = true ->
                 forall prev', search_words_from prev' [w] s = true.
Proof.
  intro Hu. induction s as [| c r IH]; intros prev H prev'.
  - cbn [search_words_from existsb] in H.
    rewrite !orb_false_r in H. apply andb_prop in H as [_ H].
    exact (word_at_after u w Hu "" prev' H).
  - cbn [search_words_from existsb] in H. apply orb_true_iff in H as [H | H].
    + rewrite orb_false_r in H. apply andb_prop in H as [_ H].
      exact (word_at_after u w Hu _ prev' H).
    + cbn [search_words_from]. apply orb_true_iff. right.
      exact (IH _ H _).
Qed.

Lemma search_words_longer (w : string) (longer : list string) (s : string) :
  (forall x, In x longer ->
             exists u, ends_outside_word u = true /\ x = u ++ w) ->
  search_words (w :: longer) s = search_words [w] s.
Proof.
  unfold search_words. induction longer as [| x xs IH]; intro H; [reflexivity |].
  change (w :: x :: xs) with ([w; x] ++ xs)%list.
  rewrite search_words_from_app.
  change [w; x] with ([w] ++ [x])%list. rewrite search_words_from_app.
  destruct (search_words_from false [w] s) eqn:Ew; [reflexivity |].
  destruct (H x (or_introl eq_refl)) as (u & Hu & ->).
  destruct (search_words_from false [u ++ w] s) eqn:Ex.
  - rewrite (search_words_after u w Hu s false Ex false) in Ew. discriminate.
  - simpl.
    assert (IH' := IH (fun y Hy => H y (or_intror Hy))).
    change (w :: xs) with ([w] ++ xs)%list in IH'.
    rewrite search_words_from_app, Ew in IH'. exact IH'.
Qed.

Lemma contains_app_r (u w s : string) :
  contains (u ++ w) s = true -> contains w s = true.
Proof.
  assert (Hst : forall v t, startswith (v ++ w) t = true -> contains w t = true).
  { induction v as [| a v IH]; intros t H.
    - simpl in H. destruct t; simpl; rewrite H; reflexivity.
    - destruct t as [| b t]; [discriminate |].
      simpl in H. apply andb_prop in H as [_ H].
      cbn [contains]. rewrite (IH t H). apply orb_true_r. }
  induction s as [| c r IH]; intro H.
  - simpl in H. rewrite orb_false_r in H. exact (Hst u "" H).
  - cbn [contains] in H. apply orb_true_iff in H as [H | H].
    + exact (Hst u _ H).
    + cbn [contains]. rewrite (IH H). apply orb_true_r.
Qed.

Lemma time_alternatives (lower : string) :
  search_words ["time"; "current time"; "what time"] lower
  = search_words ["time"] lower.
Proof.
  apply search_words_longer. intros x [<- | [<- | []]].
  - exists "current ". split; reflexivity.
  - exists "what ". split; reflexivity.
Qed.

Lemma date_alternatives (lower : string) :
  search_words ["date"; "today's date"; "what date"] lower
  = search_words ["date"] lower.
Proof.
  apply search_words_longer. intros x [<- | [<- | []]].
  - exists "today's ". split; reflexivity.
  - exists "what ". split; reflexivity.
Qed.

Lemma fact_alternatives (lower : string) :
  contains "fact" lower || contains "random fact" lower = contains "fact" lower.
Proof.
  destruct (contains "fact" lower) eqn:E; [reflexivity |].
  destruct (contains "random fact" lower) eqn:E'; [| reflexivity].
  rewrite (contains_app_r "random " "fact" lower E') in E. discriminate.
Qed.

Ltac rule_by_rule H :=
  repeat match type of H with
         | (if ?c then _ else _) = _ => destruct c eqn:?; try discriminate H
         end.

(** X9.  Three rules of [chatbot_response] list alternatives that never
    decide.  Wherever "current time" or "what time" matches, "time"
    matches as well, and likewise "date" for "today's date" and "what
    date"; a text that contains "random fact" contains "fact".  So the
    time, the date or a fact is the reply only to a text that has the
    short word. *)
Theorem longer_alternatives_never_decide draw (lower : string) :
  search_words ["time"; "current time"; "what time"] lower
  = search_words ["time"] lower
  /\ search_words ["date"; "today's date"; "what date"] lower
     = search_words ["date"] lower
  /\ contains "fact" lower || contains "random fact" lower
     = contains "fact" lower
  /\ (earlier_rules draw lower = Some CurrentTime ->
      search_words ["time"] lower = true)
  /\ (earlier_rules draw lower = Some TodaysDate ->
      search_words ["date"] lower = true)
  /\ (forall i, earlier_rules draw lower = Some (Fact i) ->
                contains "fact" lower = true).
Proof.
  split; [apply time_alternatives |].
  split; [apply date_alternatives |].
  split; [apply fact_alternatives |].
  unfold earlier_rules. rewrite time_alternatives, date_alternatives,
    fact_alternatives.
  split; [| split].
  - intro H. rule_by_rule H. reflexivity.
  - intro H. rule_by_rule H. reflexivity.
  - intros i H. rule_by_rule H. reflexivity.
Qed.

Lemma longer_alternatives_witness :
  search_words ["time"] "what time is it" = true
  /\ search_words ["date"] "what is today's date" = true
  /\ contains "fact" "a random fact" = true.
Proof.
  split; [| split].
  - exact (proj1 (proj2 (proj2 (proj2
             (longer_alternatives_never_decide 0 "what time is it")))) eq_refl).
  - exact (proj1 (proj2 (proj2 (proj2 (proj2
             (longer_alternatives_never_decide 0 "what is today's date")))))
             eq_refl).
  - exact (proj2 (proj2 (proj2 (proj2 (proj2
             (longer_alternatives_never_decide 0 "a random fact"))))) 0 eq_refl).
Defined.

(** ** The [calc] command never hands over an empty expression *)

Lemma str_app_length (a b : string) : length (a ++ b) = length a + length b.
Proof.
  induction a as [| c r IH]; [reflexivity |]. simpl. rewrite IH. reflexivity.
Qed.

Lemma str_app_assoc (a b c : string) : (a ++ b) ++ c = a ++ (b ++ c).
Proof.
  induction a as [| x r IH]; [reflexivity |]. simpl. rewrite IH. reflexivity.
Qed.

Lemma str_app_nil (a : string) : a ++ "" = a.
Proof.
  induction a as [| x r IH]; [reflexivity |]. simpl. rewrite IH. reflexivity.
Qed.

Lemma rstrip_idem (s : string) : rstrip (rstrip s) = rstrip s.
Proof.
  induction s as [| c r IH]; [reflexivity |].
  cbn [rstrip]. destruct (rstrip r) as [| d r'] eqn:E.
  - destruct (isspace c) eqn:Ec; [reflexivity |]. simpl. rewrite Ec. reflexivity.
  - cbn [rstrip]. cbn [rstrip] in IH. rewrite IH. reflexivity.
Qed.

Lemma rstrip_length (s : string) : length (rstrip s) <= length s.
Proof.
  induction s as [| c r IH]; [apply Nat.le_refl |].
  cbn [rstrip]. destruct (rstrip r) as [| d r'].
  - destruct (isspace c); simpl; lia.
  - simpl in *. lia.
Qed.

Lemma rstrip_empty (s : string) :
  rstrip s = "" -> all_chars isspace s = true.
Proof.
  induction s as [| c r IH]; [reflexivity |].
  cbn [rstrip]. destruct (rstrip r) as [| d r']; [| discriminate].
  destruct (isspace c) eqn:Ec; [| discriminate].
  intros _. simpl. rewrite Ec. exact (IH eq_refl).
Qed.

Lemma lstrip_all (s : string) :
  all_chars isspace (lstrip s) = true -> all_chars isspace s = true.
Proof.
  induction s as [| c r IH]; [reflexivity |].
  simpl. destruct (isspace c) eqn:Ec; [exact IH |].
  simpl. rewrite Ec. discriminate.
Qed.

Lemma strip_empty (s : string) : strip s = "" -> all_chars isspace s = true.
Proof.
  intro H. apply lstrip_all. apply rstrip_empty. exact H.
Qed.

(** The end of a string that [rstrip] leaves alone does not strip to
    nothing. *)
Lemma strip_of_suffix (pre e : string) :
  rstrip (pre ++ e) = pre ++ e -> e <> "" -> strip e <> "".
Proof.
  intros Hr He Hs. apply strip_empty in Hs.
  rewrite (rstrip_app_space pre e Hs) in Hr.
  pose proof (rstrip_length pre) as Hl. rewrite Hr in Hl.
  rewrite str_app_length in Hl.
  destruct e as [| c e]; [contradiction |]. simpl in Hl. lia.
Qed.

Lemma all_chars_lstrip (p : ascii -> bool) (s : string) :
  all_chars p s = true -> all_chars p (lstrip s) = true.
Proof.
  induction s as [| c r IH]; [reflexivity |].
  intro H. simpl. destruct (isspace c); [| exact H].
  simpl in H. apply andb_prop in H as [_ H]. exact (IH H).
Qed.

Lemma all_chars_rstrip (p : ascii -> bool) (s : string) :
  all_chars p s = true -> all_chars p (rstrip s) = true.
Proof.
  induction s as [| c r IH]; [reflexivity |].
  intro H. simpl in H. apply andb_prop in H as [Hc Hr].
  cbn [rstrip]. specialize (IH Hr). destruct (rstrip r) as [| d r'].
  - destruct (isspace c); [reflexivity |]. simpl. rewrite Hc. reflexivity.
  - cbn [all_chars]. rewrite Hc. exact IH.
Qed.

Lemma all_chars_app (p : ascii -> bool) (a b : string) :
  all_chars p (a ++ b) = all_chars p a && all_chars p b.
Proof.
  induction a as [| c r IH]; [reflexivity |].
  simpl. rewrite IH. apply andb_assoc.
Qed.

(** A character of a line: anything but the line feed. *)
Definition in_line (c : ascii) : bool := negb (is_char 10 c).

Lemma in_line_lower_char (c : ascii) : in_line (lower_char c) = in_line c.
Proof. each_char c. Qed.

Lemma in_line_lower (s : string) :
  all_chars in_line (lower s) = all_chars in_line s.
Proof.
  induction s as [| c r IH]; [reflexivity |].
  simpl. rewrite in_line_lower_char, IH. reflexivity.
Qed.

Lemma drop_split (n : nat) (s : string) : exists p, s = p ++ drop n s.
Proof.
  revert s. induction n as [| n IH]; intro s; [exists ""; reflexivity |].
  destruct s as [| c r]; [exists ""; reflexivity |].
  destruct (IH r) as [p Hp]. exists (String c p). simpl. rewrite <- Hp. reflexivity.
Qed.

Lemma drop_length_eq (n : nat) (s : string) :
  length (drop n s) = length s - n.
Proof.
  revert s. induction n as [| n IH]; intro s; [simpl; lia |].
  destruct s as [| c r]; [reflexivity |]. simpl. apply IH.
Qed.

Lemma take_while_split (p : ascii -> bool) (s : string) :
  s = fst (Lexer.take_while p s) ++ snd (Lexer.take_while p s).
Proof.
  induction s as [| c r IH]; [reflexivity |].
  simpl. destruct (p c); [| reflexivity].
  destruct (Lexer.take_while p r) as [a b]. simpl in *. rewrite <- IH. reflexivity.
Qed.

Lemma take_while_all (p : ascii -> bool) (s : string) :
  all_chars p s = true -> Lexer.take_while p s = (s, "").
Proof.
  induction s as [| c r IH]; [reflexivity |].
  simpl. intro H. apply andb_prop in H as [Hc Hr].
  rewrite Hc, (IH Hr). reflexivity.
Qed.

(** The group of the [calc] pattern on a text of one line is an end of
    that text, and not empty. *)
Lemma calc_match_suffix (l e : string) :
  all_chars in_line l = true ->
  calc_match l = Some e ->
  e <> "" /\ exists pre, l = pre ++ e.
Proof.
  intros Hl H. unfold calc_match in H.
  destruct (startswith "calc" l); [| discriminate].
  destruct (drop_split 4 l) as [p4 Hp4].
  pose proof (take_while_split (fun c => is_char 58 c || is_char 32 c) (drop 4 l))
    as Hsp.
  destruct (Lexer.take_while (fun c => is_char 58 c || is_char 32 c) (drop 4 l))
    as [seps tail]. cbn [fst snd] in Hsp.
  assert (Ht : all_chars in_line tail = true).
  { rewrite Hp4, Hsp, !all_chars_app in Hl.
    apply andb_prop in Hl as [_ Hl]. apply andb_prop in Hl as [_ Hl]. exact Hl. }
  change (fun c => negb (is_char 10 c)) with in_line in H.
  rewrite (take_while_all in_line tail Ht) in H. cbn [fst] in H.
  rewrite Hsp in Hp4.
  destruct seps as [| a seps]; [discriminate |].
  destruct tail as [| t tail].
  - destruct seps as [| b seps]; [discriminate |].
    injection H as He. rewrite str_app_nil in Hp4. split.
    + intro E. rewrite E in He. apply (f_equal length) in He.
      rewrite drop_length_eq in He. cbn [length] in He. lia.
    + match type of He with
      | drop ?n ?s = _ => destruct (drop_split n s) as [q Hq]
      end.
      rewrite He in Hq. exists (p4 ++ String a q).
      rewrite str_app_assoc. cbn [append]. rewrite <- Hq. exact Hp4.
  - assert (He : String t tail = e) by (destruct seps; injection H as <-; reflexivity).
    subst e. split; [discriminate |].
    exists (p4 ++ String a seps). rewrite str_app_assoc. exact Hp4.
Qed.

(** An outcome that is not the error "Empty expression", whatever the
    class of the exception. *)
Definition not_empty_error {A : Type} (r : result A) : Prop :=
  match r with
  | Ok _ => True
  | Raise x => exn_str x <> "Empty expression"
  end.

Lemma not_empty_error_bind {A B : Type} (r : result A) (k : A -> result B) :
  not_empty_error r -> (forall a, not_empty_error (k a)) ->
  not_empty_error (bind r k).
Proof.
  destruct r as [a | x]; simpl; intros Hr Hk; [apply Hk | exact Hr].
Qed.

Lemma not_empty_error_to_float (v : value) : not_empty_error (to_float v).
Proof.
  destruct v; simpl; try exact I; unfold float_of_int;
    destruct (F64.of_Z _); simpl; try exact I; discriminate.
Qed.

Lemma not_empty_error_to_complex (v : value) : not_empty_error (to_complex v).
Proof.
  destruct v; try exact I; unfold to_complex;
    (apply not_empty_error_bind; [apply not_empty_error_to_float | intro; exact I]).
Qed.

Lemma not_empty_error_dispatch on_int on_float on_complex (a b : value) :
  (forall x y, not_empty_error (on_int x y)) ->
  (forall x y, not_empty_error (on_float x y)) ->
  (forall x y, not_empty_error (on_complex x y)) ->
  not_empty_error (dispatch on_int on_float on_complex a b).
Proof.
  intros Hi Hf Hc. unfold dispatch.
  destruct (is_complex a || is_complex b).
  - apply not_empty_error_bind; [apply not_empty_error_to_complex | intro x].
    apply not_empty_error_bind; [apply not_empty_error_to_complex | intro y].
    apply Hc.
  - destruct (is_float a || is_float b); [| apply Hi].
    apply not_empty_error_bind; [apply not_empty_error_to_float | intro x].
    apply not_empty_error_bind; [apply not_empty_error_to_float | intro y].
    apply Hf.
Qed.

Ltac by_branches :=
  repeat match goal with
         | |- context [if ?c then _ else _] => destruct c
         end;
  simpl; first [exact I | discriminate].

Lemma not_empty_error_complex_pow rt (x y : float * float) :
  not_empty_error (complex_pow rt x y).
Proof.
  unfold complex_pow.
  match goal with
  | |- context [match ?p with Some _ => _ | None => _ end] => destruct p as [[re im] |]
  end; [| simpl; discriminate].
  by_branches.
Qed.

Lemma not_empty_error_float_pow rt (x y : float) :
  not_empty_error (float_pow rt x y).
Proof.
  unfold float_pow.
  repeat match goal with
         | |- context [complex_pow rt ?a ?b] =>
             let H := fresh "Hc" in
             pose proof (not_empty_error_complex_pow rt a b) as H;
             generalize dependent (complex_pow rt a b); intros
         end.
  repeat match goal with
         | |- context [if ?c then _ else _] => destruct c
         end;
    simpl; first [exact I | discriminate | assumption].
Qed.

Lemma not_empty_error_call2 rt (f : operator_fn) (a b : value) :
  not_empty_error (call2 rt f a b).
Proof.
  assert (Hu : forall sym, not_empty_error (unsupported sym a b))
    by (intro sym; simpl; discriminate).
  destruct f; simpl; try discriminate.
  - apply not_empty_error_dispatch; intros; exact I.
  - apply not_empty_error_dispatch; intros; exact I.
  - apply not_empty_error_dispatch; intros; exact I.
  - apply not_empty_error_dispatch; intros x y.
    + unfold int_truediv. by_branches.
    + unfold float_truediv. by_branches.
    + unfold complex_truediv. destruct (c_quot x y); simpl;
        [exact I | discriminate].
  - apply not_empty_error_dispatch; intros x y.
    + unfold int_pow. destruct (y <? 0)%Z; [| exact I].
      apply not_empty_error_bind; [apply (not_empty_error_to_float (VInt x)) |].
      intro u.
      apply not_empty_error_bind; [apply (not_empty_error_to_float (VInt y)) |].
      intro w. apply not_empty_error_float_pow.
    + apply not_empty_error_float_pow.
    + apply not_empty_error_complex_pow.
  - unfold mod_. destruct (is_complex a || is_complex b); [apply Hu |].
    apply not_empty_error_dispatch; intros x y.
    + unfold int_mod. by_branches.
    + unfold float_mod. destruct (is_zero y); simpl; [discriminate | exact I].
    + apply Hu.
  - unfold floordiv. destruct (is_complex a || is_complex b); [apply Hu |].
    apply not_empty_error_dispatch; intros x y.
    + unfold int_floordiv. by_branches.
    + unfold float_floordiv. destruct (is_zero y); simpl; [discriminate | exact I].
    + apply Hu.
Qed.

Lemma not_empty_error_call1 (f : operator_fn) (a : value) :
  not_empty_error (call1 f a).
Proof.
  destruct f; simpl; try discriminate; destruct a; simpl; exact I.
Qed.

Lemma not_empty_error_value_of rt (e : expr) : not_empty_error (value_of rt e).
Proof.
  induction e as [c | id | l IHl op r IHr | u x IHx | f args | x attr];
    try (simpl; discriminate).
  - destruct c; simpl; first [exact I | discriminate].
  - rewrite value_of_BinOp.
    destruct (lookup (OperatorClass op) _ALLOWED_OPERATORS) as [f |].
    + apply not_empty_error_bind; [exact IHl | intro a].
      apply not_empty_error_bind; [exact IHr | intro b].
      apply not_empty_error_call2.
    + simpl. discriminate.
  - rewrite value_of_UnaryOp.
    destruct (lookup (UnaryopClass u) _ALLOWED_OPERATORS) as [f |].
    + apply not_empty_error_bind; [exact IHx | intro a].
      apply not_empty_error_call1.
    + simpl. discriminate.
Qed.

Lemma not_empty_error_evaluate rt (s : string) :
  strip s <> "" -> not_empty_error (evaluate rt s).
Proof.
  intro H. unfold evaluate, safe_eval_expr.
  destruct (String.eqb_spec (strip s) "") as [E | _]; [contradiction |].
  destruct (Parser.parse (strip s)) as [[body] | m].
  - apply not_empty_error_value_of.
  - simpl. discriminate.
Qed.

Lemma earlier_rules_named draw (l : string) (r : response) :
  earlier_rules draw l = Some r -> forall t, r <> Says t.
Proof.
  unfold earlier_rules. intros H t. rule_by_rule H;
    injection H as <-; discriminate.
Qed.

Lemma later_rules_named draw (l : string) (t : string) :
  later_rules draw l <> Says t.
Proof.
  unfold later_rules.
  repeat match goal with
         | |- context [if ?c then _ else _] => destruct c
         | |- context [match ?x with Some _ => _ | None => _ end] => destruct x
         end; discriminate.
Qed.

(** The stripped, lower-cased text of one line: it is one line, and
    [rstrip] leaves it alone. *)
Lemma lower_strip_line (input : string) :
  all_chars in_line input = true ->
  all_chars in_line (lower (strip input)) = true
  /\ rstrip (lower (strip input)) = lower (strip input).
Proof.
  intro H. split.
  - rewrite in_line_lower. unfold strip.
    apply all_chars_rstrip, all_chars_lstrip, H.
  - unfold strip. rewrite <- rstrip_lower, rstrip_idem. reflexivity.
Qed.

(** X10.  On an input of one line the [calc] command never hands an
    empty expression to the evaluator, and the reply is never
    "Calculator error: Empty expression": what follows [calc] and its
    separators ends where the stripped input ends, so it holds a
    character that is not white space.  An input of several lines can get
    that reply: [calc: ] followed by a line feed and more text does. *)
Theorem calc_never_reports_empty rt draw :
  fst (chatbot_response rt draw ("calc: " ++ String (ascii_of_N 10) "x")
         module_globals)
  = Ok (Says "Calculator error: Empty expression")
  /\ forall input : string,
       all_chars in_line input = true ->
       (forall e, calc_match (lower (strip input)) = Some e -> strip e <> "")
       /\ fst (chatbot_response rt draw input module_globals)
          <> Ok (Says "Calculator error: Empty expression").
Proof.
  split; [reflexivity |].
  intros input Hin.
  destruct (lower_strip_line input Hin) as [Hline Hr].
  assert (Hne : forall e, calc_match (lower (strip input)) = Some e ->
                          strip e <> "").
  { intros e He.
    destruct (calc_match_suffix _ e Hline He) as (Hnil & pre & Hpre).
    rewrite Hpre in Hr. exact (strip_of_suffix pre e Hr Hnil). }
  split; [exact Hne |].
  unfold chatbot_response.
  destruct (earlier_rules draw (lower (strip input))) as [r |] eqn:Er.
  - simpl. intro H. injection H as H.
    exact (earlier_rules_named draw _ r Er _ H).
  - unfold calculator_rules.
    destruct (calc_match (lower (strip input))) as [e |] eqn:Ec.
    + pose proof (not_empty_error_evaluate rt e (Hne e eq_refl)) as Hq.
      unfold evaluate in Hq.
      destruct (safe_eval_expr rt e module_globals) as [[v | x] g']; simpl in *.
      * discriminate.
      * intro H. injection H as H. exact (Hq H).
    + destruct (math_fullmatch (replace_caret (lower (strip input)))).
      * destruct (safe_eval_expr rt (replace_caret (lower (strip input)))
                    module_globals) as [[v | x] g']; simpl.
        -- discriminate.
        -- intro H. injection H as H. exact (later_rules_named draw _ _ H).
      * simpl. intro H. injection H as H. exact (later_rules_named draw _ _ H).
Qed.

Lemma calc_never_reports_empty_witness :
  (forall e, calc_match (lower (strip "Calc :")) = Some e -> strip e <> "")
  /\ fst (chatbot_response no_libm 0 "Calc :" module_globals)
     <> Ok (Says "Calculator error: Empty expression").
Proof.
  apply (proj2 (calc_never_reports_empty no_libm 0) "Calc :"). reflexivity.
Defined.

(** * The typing effect: [typing_print] *)

Module Terminal.

(** What [typing_print] does to the outside, in order. *)
Inductive event : Type :=
| Write (s : string)
| Flush
| Sleep (seconds : float).

Definition line_end : string := String (ascii_of_N 10) "".

(** [print(text)] writes the text and then the line end; [print()]
    writes the line end alone. *)
Definition print (text : string) : list event := [Write text; Write line_end].

Definition print_nothing : list event := [Write line_end].

(** The text that reached the terminal. *)
Fixpoint written (events : list event) : string :=
  match events with
  | [] => ""
  | Write s :: rest => s ++ written rest
  | _ :: rest => written rest
  end.

(** The number of pauses taken. *)
Fixpoint pauses (events : list event) : nat :=
  match events with
  | [] => 0
  | Sleep _ :: rest => S (pauses rest)
  | _ :: rest => pauses rest
  end.

Section TypingPrint.

(** [time.sleep]: [None] when it returns after the pause, the exception
    when it refuses the length (not a number, or beyond what the platform
    can wait). *)
Variable sleep : float -> option exn.

(** The loop of lines 78-81; it ends early when [time.sleep] raises. *)
Fixpoint type_chars (text : string) (delay : float) : list event * option exn :=
  match text with
  | EmptyString => ([], None)
  | String ch rest =>
      match sleep delay with
      | Some e => ([Write (String ch ""); Flush], Some e)
      | None =>
          let (events, e) := type_chars rest delay in
          (Write (String ch "") :: Flush :: Sleep delay :: events, e)
      end
  end.

(** [typing_print] (lines 70-82): the events, and how the call ends. *)
Definition typing_print (text : string) (delay : float)
  : list event * result unit :=
  if (delay <=? 0)%float then (print text, Ok tt)
  else
    match type_chars text delay with
    | (events, Some e) => (events, Raise e)
    | (events, None) => ((events ++ print_nothing)%list, Ok tt)
    end.

End TypingPrint.

End Terminal.

Lemma written_app (a b : list Terminal.event) :
  Terminal.written (a ++ b) = Terminal.written a ++ Terminal.written b.
Proof.
  induction a as [| [s | | d] a IH]; simpl; try exact IH; [reflexivity |].
  rewrite IH, str_app_assoc. reflexivity.
Qed.

Lemma pauses_app (a b : list Terminal.event) :
  Terminal.pauses (a ++ b) = Terminal.pauses a + Terminal.pauses b.
Proof.
  induction a as [| [s | | d] a IH]; simpl; try exact IH; [reflexivity |].
  rewrite IH. reflexivity.
Qed.

Lemma type_chars_written sleep (text : string) (delay : float) :
  sleep delay = None ->
  exists events,
    Terminal.type_chars sleep text delay = (events, None)
    /\ Terminal.written events = text
    /\ Terminal.pauses events = length text.
Proof.
  intro Hs. induction text as [| ch rest (events & He & Hw & Hp)].
  - exists []. repeat split.
  - simpl. rewrite Hs, He. eexists. split; [reflexivity |].
    simpl. rewrite Hw, Hp. split; reflexivity.
Qed.

(** X11.  The typing effect changes the pace and not the text.  When
    [time.sleep] accepts the delay, or the delay is not positive, the
    call returns and what reaches the terminal is the text followed by a
    line end; with a positive delay there is one pause for each character,
    and with a delay that is not positive there is none. *)
Theorem typing_print_writes_the_text sleep (text : string) (delay : float) :
  sleep delay = None \/ (delay <=? 0)%float = true ->
  snd (Terminal.typing_print sleep text delay) = Ok tt
  /\ Terminal.written (fst (Terminal.typing_print sleep text delay))
     = text ++ Terminal.line_end
  /\ Terminal.pauses (fst (Terminal.typing_print sleep text delay))
     = if (delay <=? 0)%float then 0 else length text.
Proof.
  intro H. unfold Terminal.typing_print.
  destruct (delay <=? 0)%float eqn:Hd.
  - repeat split.
  - destruct H as [Hs | H]; [| discriminate].
    destruct (type_chars_written sleep text delay Hs) as (events & He & Hw & Hp).
    rewrite He. cbn [fst snd]. split; [reflexivity |].
    rewrite written_app, pauses_app, Hw, Hp. simpl.
    split; [reflexivity | apply Nat.add_0_r].
Qed.

(** The delay of the quiz, 0.002: the binary64 number nearest to it. *)
Definition quiz_delay : float := 0x1.0624dd2f1a9fcp-9%float.

Lemma typing_print_writes_the_text_witness :
  snd (Terminal.typing_print (fun _ => None) "Skipped." quiz_delay) = Ok tt
  /\ Terminal.written (fst (Terminal.typing_print (fun _ => None) "Skipped."
                              quiz_delay))
     = "Skipped." ++ Terminal.line_end
  /\ Terminal.pauses (fst (Terminal.typing_print (fun _ => None) "Skipped."
                             quiz_delay))
     = if (quiz_delay <=? 0)%float then 0 else length "Skipped.".
Proof.
  apply (typing_print_writes_the_text (fun _ => None) "Skipped." quiz_delay).
  left. reflexivity.
Defined.

(** * The quiz and the command loop: [run_quiz] and [main]

    The loop talks to the outside: it reads lines, asks the clock, draws
    at random, and writes and reads the log file.  The model keeps the
    lines still to be read, counts the calls of the clock and lists the
    file operations; what the outside answers is given by the functions
    of an environment.  What the program prints is not part of the state:
    printing is taken to succeed, and changes neither the history nor the
    course of the loop.  A keyboard interrupt is not modelled. *)

Module Session.

#[local] Set Warnings "-register-all".

(** The values [json.load] can return. *)
Inductive json : Type :=
| JNull
| JBool (b : bool)
| JInt (z : Z)
| JFloat (f : float)
| JStr (s : string)
| JList (items : list json)
| JDict (items : list (string * json)).

Definition LOG_FILENAME : string := "pybot_chat_history.json".

Record question : Type := { q : string; a : string }.

Definition QUIZ_QUESTIONS : list question :=
  [ {| q := "What is the output of 2 + 2?"; a := "4" |};
    {| q := "Which language is this bot written in?"; a := "python" |};
    {| q := "What year has 365 days? (type: year)"; a := "any non-leap year" |} ].

(** [{"time": time, "sender": sender, "text": text}] *)
Definition entry (time sender : string) (text : json) : json :=
  JDict [("time", JStr time); ("sender", JStr sender); ("text", text)].

Definition dq : string := String (ascii_of_N 34) "".

Fixpoint unlines (lines : list string) : string :=
  match lines with
  | [] => ""
  | l :: rest => l ++ Terminal.line_end ++ unlines rest
  end.

(** [show_help] (lines 280-304) *)
Definition show_help : string :=
  let help_text :=
    Terminal.line_end ++ unlines [
      "PyBot Commands and Usage";
      "------------------------";
      "General chat: type messages naturally, e.g., " ++ dq ++ "hello" ++ dq
        ++ ", " ++ dq ++ "your name" ++ dq ++ ", " ++ dq ++ "tell me a joke"
        ++ dq ++ ".";
      "";
      "Slash commands:";
      "  /help       - Show this help message";
      "  /history    - Show recent conversation history in memory";
      "  /save       - Save conversation history to a file (pybot_chat_history.json)";
      "  /load       - Load conversation history from file (merges into current session)";
      "  /quiz       - Start a mini quiz";
      "  /clear      - Clear in-memory conversation history";
      "  /exit       - Exit the chatbot";
      "";
      "Special features:";
      "  calc <expr> - Safe arithmetic evaluation, e.g. " ++ dq ++ "calc 2+3*4"
        ++ dq ++ " or just " ++ dq ++ "2+3*4" ++ dq;
      "               Supported: + - * / // % ** and parentheses.";
      "";
      "Tips:";
      " - Be polite, but not necessary. I respond to keywords.";
      " - If I fail to understand, try rephrasing or use /help." ] in
  strip help_text.

(** A file operation of the program, with how it went: a write carries
    the text of the exception when it failed. *)
Inductive file_op : Type :=
| Wrote (filename : string) (content : list json) (failure : option string)
| Read (filename : string).

(** What reading the log file gives: the value [json.load] returns, or
    FileNotFoundError, or another exception with its text. *)
Inductive read_result : Type :=
| Data (value : json)
| NotFound
| ReadFailed (message : string).

(** The state of a session: the list [history] of [main], which
    [run_quiz] receives and changes in place; the lines [input] has yet
    to return; the number of calls of [timestamp] so far; the file
    operations so far, the latest first. *)
Record state : Type := {
  history : list json;
  stdin : list string;
  ticks : nat;
  files : list file_op
}.

(** The exceptions that can end the loop from inside. *)
Inductive error : Type :=
| EOFError                      (* input() at the end of the input *)
| NotIterable (data : json)     (* history.extend(data) *)
| NoGet (item : json)           (* entry.get on a value that is no dict *)
| Escaped (e : exn).            (* an exception out of chatbot_response *)

(** A step of the program: it returns or raises, and leaves a state. *)
Definition IO (A : Type) : Type := state -> (A + error) * state.

Definition pure {A : Type} (x : A) : IO A := fun st => (inl x, st).

Definition throw {A : Type} (e : error) : IO A := fun st => (inr e, st).

Definition and_then {A B : Type} (m : IO A) (k : A -> IO B) : IO B :=
  fun st =>
    match m st with
    | (inl x, st') => k x st'
    | (inr e, st') => (inr e, st')
    end.

Notation "x <<- m ;; k" := (and_then m (fun x => k))
  (at level 61, m at next level, right associativity).

Definition get_history : IO (list json) := fun st => (inl (history st), st).

Definition set_history (h : list json) : IO unit :=
  fun st =>
    (inl tt, {| history := h; stdin := stdin st; ticks := ticks st;
                files := files st |}).

(** [history.extend(items)] and [history.append(item)] *)
Definition extend (items : list json) : IO unit :=
  h <<- get_history ;; set_history (h ++ items).

Definition append (item : json) : IO unit := extend [item].

(** [input(prompt)] *)
Definition input : IO string :=
  fun st =>
    match stdin st with
    | [] => (inr EOFError, st)
    | line :: rest =>
        (inl line, {| history := history st; stdin := rest; ticks := ticks st;
                      files := files st |})
    end.

(** What iterating over a value yields, where it can be iterated: the
    items of a list, the keys of a dict, the characters of a string. *)
Definition items_of (data : json) : option (list json) :=
  match data with
  | JList items => Some items
  | JDict items => Some (map (fun kv => JStr (fst kv)) items)
  | JStr s => Some (map (fun c => JStr (String c "")) (list_ascii_of_string s))
  | _ => None
  end.

Definition is_dict (item : json) : bool :=
  match item with JDict _ => true | _ => false end.

(** [items[-n:]] *)
Definition last_n {A : Type} (n : nat) (items : list A) : list A :=
  skipn (List.length items - n) items.

(** The first item of a list that is no dict. *)
Fixpoint first_other (items : list json) : option json :=
  match items with
  | [] => None
  | item :: rest => if is_dict item then first_other rest else Some item
  end.

Definition decimal (n : nat) : string := str_of_Z (Z.of_nat n).

Inductive control : Type := Again | Leave.

Section Environment.

Variable rt : runtime.

(** [datetime.now().isoformat()] at the n-th call of [timestamp]. *)
Variable clock : nat -> string.

(** The draw of [random.choice] in a reply made after [n] calls of
    [timestamp], and the text of the reply a rule names (the fixed texts,
    and the time and the date as formatted then). *)
Variable dice : nat -> nat.
Variable wording : nat -> response -> string.

(** The outside of [save_history] and [load_history], after [n] file
    operations: [None] when [open] and [json.dump] succeed, else the text
    of the exception; and what [open] and [json.load] give. *)
Variable write_file : nat -> string -> list json -> option string.
Variable read_file : nat -> string -> read_result.

(** [timestamp] (lines 85-87) *)
Definition timestamp : IO string :=
  fun st =>
    (inl (clock (ticks st)),
     {| history := history st; stdin := stdin st; ticks := S (ticks st);
        files := files st |}).

Definition record_file_op (op : file_op) : IO unit :=
  fun st =>
    (inl tt, {| history := history st; stdin := stdin st; ticks := ticks st;
                files := op :: files st |}).

Definition file_ops_so_far : IO nat :=
  fun st => (inl (List.length (files st)), st).

(** [save_history] (lines 138-145) *)
Definition save_history (content : list json) (filename : string)
  : IO (bool * string) :=
  n <<- file_ops_so_far ;;
  let failure := write_file n filename content in
  _ <<- record_file_op (Wrote filename content failure) ;;
  match failure with
  | None => pure (true, "Saved history to " ++ filename ++ ".")
  | Some e => pure (false, "Failed to save history: " ++ e)
  end.

(** [load_history] (lines 148-157); the message of a failure is a [str]
    where the data would be. *)
Definition load_history (filename : string) : IO (bool * json) :=
  n <<- file_ops_so_far ;;
  _ <<- record_file_op (Read filename) ;;
  match read_file n filename with
  | Data value => pure (true, value)
  | NotFound =>
      pure (false, JStr ("No saved history found at " ++ filename ++ "."))
  | ReadFailed e => pure (false, JStr ("Failed to load history: " ++ e))
  end.

(** [history.append({"time": timestamp(), "sender": sender, "text": text})] *)
Definition log (sender : string) (text : json) : IO unit :=
  t <<- timestamp ;; append (entry t sender text).

(** The loop of [run_quiz] (lines 315-331), from question [idx] on. *)
Fixpoint ask (idx : nat) (questions : list question) (score : nat) : IO nat :=
  match questions with
  | [] => pure score
  | qn :: rest =>
      line <<- input ;;
      let answer := lower (strip line) in
      if (answer =? "skip")%string then
        _ <<- log "user" (JStr ("quiz q" ++ decimal idx ++ " skip")) ;;
        _ <<- log "bot" (JStr "Question skipped.") ;;
        ask (S idx) rest score
      else if (answer =? lower (a qn))%string then
        _ <<- log "user" (JStr ("quiz q" ++ decimal idx ++ " " ++ answer)) ;;
        _ <<- log "bot" (JStr "Correct!") ;;
        ask (S idx) rest (S score)
      else
        _ <<- log "user" (JStr ("quiz q" ++ decimal idx ++ " " ++ answer)) ;;
        _ <<- log "bot" (JStr ("Answer: " ++ a qn)) ;;
        ask (S idx) rest score
  end.

(** [run_quiz] (lines 310-333) *)
Definition run_quiz : IO (nat * nat) :=
  let total := List.length QUIZ_QUESTIONS in
  score <<- ask 1 QUIZ_QUESTIONS 0 ;;
  pure (score, total).

(** The text of a reply of [chatbot_response]. *)
Definition reply_text (n : nat) (r : response) : string :=
  match r with
  | Says text => text
  | _ => wording n r
  end.

(** The answer to a command [main] does not know (lines 413-417). *)
Definition unknown_command : IO control :=
  _ <<- log "bot" (JStr "Unknown command. Type /help for available commands.") ;;
  pure Again.

(** The slash commands of [main] (lines 361-417). *)
Definition slash_command (user_input : string) : IO control :=
  let cmd := lower (strip user_input) in
  if (cmd =? "/help")%string then
    let help_text := show_help in
    _ <<- log "bot" (JStr help_text) ;;
    pure Again
  else if (cmd =? "/history")%string then
    h <<- get_history ;;
    match first_other (last_n 40 h) with
    | Some item => throw (NoGet item)
    | None => pure Again
    end
  else if (cmd =? "/save")%string then
    h <<- get_history ;;
    saved <<- save_history h LOG_FILENAME ;;
    _ <<- log "bot" (JStr (snd saved)) ;;
    pure Again
  else if (cmd =? "/load")%string then
    loaded <<- load_history LOG_FILENAME ;;
    let (ok, data) := loaded in
    if ok then
      match items_of data with
      | None => throw (NotIterable data)
      | Some items =>
          _ <<- extend items ;;
          let msg := "Loaded and merged " ++ decimal (List.length items)
                     ++ " entries from file." in
          _ <<- log "bot" (JStr msg) ;;
          pure Again
      end
    else
      _ <<- log "bot" data ;;
      pure Again
  else if (cmd =? "/clear")%string then
    _ <<- set_history [] ;;
    _ <<- log "bot" (JStr "In-memory history cleared.") ;;
    pure Again
  else if (cmd =? "/quiz")%string then
    _ <<- log "bot" (JStr "Starting quiz.") ;;
    marks <<- run_quiz ;;
    let summary := "Quiz finished. Score: " ++ decimal (fst marks) ++ "/"
                   ++ decimal (snd marks) in
    _ <<- log "bot" (JStr summary) ;;
    pure Again
  else if (cmd =? "/exit")%string then
    _ <<- log "bot" (JStr "Goodbye!") ;;
    h <<- get_history ;;
    _ <<- save_history h LOG_FILENAME ;;
    pure Leave
  else unknown_command.

(** [chatbot_response(user_input)] as [main] calls it: the module is as
    loaded, and the reply is a text. *)
Definition chatbot_reply (user_input : string) : IO string :=
  fun st =>
    match fst (chatbot_response rt (dice (ticks st)) user_input module_globals) with
    | Ok response => (inl (reply_text (ticks st) response), st)
    | Raise e => (inr (Escaped e), st)
    end.

(** The flow of [main] for a line that is no command (lines 419-432). *)
Definition chat (user_input : string) : IO control :=
  response <<- chatbot_reply user_input ;;
  _ <<- log "bot" (JStr response) ;;
  if search_words ["bye"; "goodbye"; "see ya"; "see you"; "later"]
       (lower user_input)
  then
    h <<- get_history ;;
    _ <<- save_history h LOG_FILENAME ;;
    pure Leave
  else pure Again.

(** One turn of the loop of [main] (lines 350-432). *)
Definition turn : IO control :=
  line <<- input ;;
  let user_input := strip line in
  if (user_input =? "")%string then
    _ <<- log "user" (JStr "") ;;
    pure Again
  else
    _ <<- log "user" (JStr user_input) ;;
    if startswith "/" user_input then slash_command user_input
    else chat user_input.

(** [while True] with at most [fuel] turns; [None] when they run out. *)
Fixpoint while_true (fuel : nat) : IO (option unit) :=
  match fuel with
  | O => pure None
  | S fuel' =>
      c <<- turn ;;
      match c with
      | Again => while_true fuel'
      | Leave => pure (Some tt)
      end
  end.

(** The loop inside its handler (lines 348-441): an exception saves the
    history and ends the program.  [None] when the turns run out. *)
Definition main_from (fuel : nat) (st : state) : option state :=
  match while_true fuel st with
  | (inl (Some _), st') => Some st'
  | (inl None, _) => None
  | (inr _, st') => Some (snd (save_history (history st') LOG_FILENAME st'))
  end.

(** [main] (lines 339-441) on the lines typed: every turn reads a line,
    so one turn more than there are lines is enough. *)
Definition main (lines : list string) : option state :=
  main_from (S (List.length lines))
      {| history := []; stdin := lines; ticks := 0; files := [] |}.

End Environment.

End Session.

(** ** The quiz *)

(** [item.get(key)] *)
Definition field (key : string) (item : Session.json) : option Session.json :=
  match item with
  | Session.JDict items =>
      option_map snd (find (fun kv => (fst kv =? key)%string) items)
  | _ => None
  end.

(** An answer counts when it is the expected one after trimming, in
    either letter case. *)
Definition right_answer (line : string) (qn : Session.question) : bool :=
  (lower (strip line) =? lower (Session.a qn))%string.

(** The right answers among the lines given to the questions in turn. *)
Fixpoint marks (lines : list string) (questions : list Session.question) : nat :=
  match lines, questions with
  | line :: lines', qn :: questions' =>
      (if right_answer line qn then 1 else 0) + marks lines' questions'
  | _, _ => 0
  end.

Definition never_skip (questions : list Session.question) : bool :=
  forallb (fun qn => negb (lower (Session.a qn) =? "skip")%string) questions.

Definition user_then_bot : list (option Session.json) :=
  [Some (Session.JStr "user"); Some (Session.JStr "bot")].

Lemma marks_bound (lines : list string) (questions : list Session.question) :
  marks lines questions <= List.length questions.
Proof.
  revert lines. induction questions as [| qn questions IH]; intros [| line lines];
    simpl; try lia.
  specialize (IH lines). destruct (right_answer line qn); lia.
Qed.

Section Quiz.

Import Session.

Variable clock : nat -> string.

Ltac run_io :=
  cbv [and_then log timestamp append extend get_history set_history pure throw
       input];
  cbn [history stdin ticks files].

(** One question of the loop: a line is read, two entries are logged,
    and the loop goes on with the next question. *)
Lemma ask_step (qn : question) (questions : list question) (idx score : nat)
    (st : state) (line : string) (more : list string) :
  stdin st = line :: more ->
  exists text1 text2,
    ask clock idx (qn :: questions) score st
    = ask clock (S idx) questions
        (if (lower (strip line) =? "skip")%string then score
         else if right_answer line qn then S score else score)
        {| history := (history st
                       ++ [entry (clock (ticks st)) "user" text1;
                           entry (clock (S (ticks st))) "bot" text2])%list;
           stdin := more;
           ticks := S (S (ticks st));
           files := files st |}.
Proof.
  intro Hin. destruct st as [h inp t fs]. simpl in Hin. subst inp.
  cbn [ask]. unfold right_answer. run_io.
  destruct (lower (strip line) =? "skip")%string;
    [| destruct (lower (strip line) =? lower (a qn))%string];
    eexists; eexists; rewrite <- app_assoc; reflexivity.
Qed.

Lemma senders_of_pair (t1 t2 : string) (text1 text2 : json) (rest : list json) :
  map (field "sender")
      ([entry t1 "user" text1; entry t2 "bot" text2] ++ rest)%list
  = (user_then_bot ++ map (field "sender") rest)%list.
Proof. reflexivity. Qed.

(** The loop on as many lines as there are questions. *)
Lemma ask_all (questions : list question) :
  never_skip questions = true ->
  forall (lines : list string) (idx score : nat) (st : state) (rest : list string),
    List.length lines = List.length questions ->
    stdin st = (lines ++ rest)%list ->
    exists added,
      fst (ask clock idx questions score st) = inl (score + marks lines questions)
      /\ history (snd (ask clock idx questions score st))
         = (history st ++ added)%list
      /\ map (field "sender") added
         = List.concat (map (fun _ => user_then_bot) questions)
      /\ stdin (snd (ask clock idx questions score st)) = rest
      /\ ticks (snd (ask clock idx questions score st))
         = 2 * List.length questions + ticks st
      /\ files (snd (ask clock idx questions score st)) = files st.
Proof.
  induction questions as [| qn questions IH]; intros Hskip lines idx score st rest Hlen Hin.
  - destruct lines; [| discriminate]. exists []. simpl in *.
    rewrite Nat.add_0_r, app_nil_r. repeat split. exact Hin.
  - destruct lines as [| line lines]; [discriminate |].
    simpl in Hskip. apply andb_prop in Hskip as [Hqn Hskip].
    injection Hlen as Hlen.
    destruct (ask_step qn questions idx score st line (lines ++ rest) Hin)
      as (text1 & text2 & ->).
    match goal with
    | |- context [ask clock ?i questions ?sc ?s] =>
        destruct (IH Hskip lines i sc s rest Hlen eq_refl)
          as (added & H1 & H2 & H3 & H4 & H5 & H6);
        eexists; rewrite H1, H2, H4, H5, H6; cbn [history ticks files]
    end.
    rewrite <- app_assoc.
    split; [| split; [reflexivity |]].
    + f_equal. cbn [marks]. unfold right_answer.
      destruct (String.eqb_spec (lower (strip line)) "skip") as [Es | Es].
      * rewrite Es. apply negb_true_iff in Hqn.
        rewrite String.eqb_sym, Hqn. reflexivity.
      * destruct (lower (strip line) =? lower (a qn))%string; lia.
    + split; [rewrite senders_of_pair, H3; reflexivity |].
      split; [reflexivity |]. split; [cbn [List.length]; lia | reflexivity].
Qed.

(** The loop on fewer lines than there are questions. *)
Lemma ask_short (questions : list question) :
  forall (lines : list string) (idx score : nat) (st : state),
    List.length lines < List.length questions ->
    stdin st = lines ->
    exists added,
      fst (ask clock idx questions score st) = inr EOFError
      /\ history (snd (ask clock idx questions score st))
         = (history st ++ added)%list
      /\ List.length added = 2 * List.length lines
      /\ stdin (snd (ask clock idx questions score st)) = [].
Proof.
  induction questions as [| qn questions IH]; intros lines idx score st Hlen Hin;
    [simpl in Hlen; lia |].
  destruct lines as [| line lines].
  - exists []. cbn [ask]. unfold and_then, input. rewrite Hin.
    rewrite app_nil_r. repeat split. exact Hin.
  - destruct (ask_step qn questions idx score st line lines Hin)
      as (text1 & text2 & ->).
    simpl in Hlen. apply PeanoNat.lt_S_n in Hlen.
    match goal with
    | |- context [ask clock ?i questions ?sc ?s] =>
        destruct (IH lines i sc s Hlen eq_refl) as (added & H1 & H2 & H3 & H4);
        eexists; rewrite H1, H2, H4; cbn [history]
    end.
    rewrite <- app_assoc.
    split; [reflexivity |]. split; [reflexivity |].
    split; [| reflexivity]. rewrite length_app, H3. simpl. lia.
Qed.

(** What the loop does to the state in every case: it reads lines, adds
    dicts to the history, touches no file, and raises at most EOFError. *)
Lemma ask_effect (questions : list question) :
  forall (idx score : nat) (st : state),
    exists consumed added,
      stdin st = (consumed ++ stdin (snd (ask clock idx questions score st)))%list
      /\ history (snd (ask clock idx questions score st))
         = (history st ++ added)%list
      /\ forallb is_dict added = true
      /\ files (snd (ask clock idx questions score st)) = files st
      /\ forall e, fst (ask clock idx questions score st) = inr e -> e = EOFError.
Proof.
  induction questions as [| qn questions IH]; intros idx score st.
  - exists [], []. simpl. rewrite app_nil_r. repeat split. discriminate.
  - destruct (stdin st) as [| line more] eqn:Hin.
    + exists [], []. cbn [ask]. unfold and_then, input. rewrite Hin.
      simpl. rewrite app_nil_r.
      split; [symmetry; exact Hin |]. split; [reflexivity |].
      split; [reflexivity |]. split; [reflexivity |]. intros e H. injection H as <-. reflexivity.
    + destruct (ask_step qn questions idx score st line more Hin)
        as (text1 & text2 & ->).
      match goal with
      | |- context [ask clock ?i questions ?sc ?s] =>
          destruct (IH i sc s) as (consumed & added & H1 & H2 & H3 & H4 & H5);
          exists (line :: consumed); eexists; rewrite H2, H4
      end.
      cbn [stdin history files] in *. rewrite <- app_assoc.
      split; [simpl; f_equal; exact H1 |]. split; [reflexivity |].
      split; [simpl; exact H3 |]. split; [reflexivity | exact H5].
Qed.

End Quiz.

(** X12.  The quiz asks its three questions in turn and reads one line
    for each.  With three lines to read it returns the score and the
    total 3, and the score is the number of lines that give the expected
    answer after trimming, in either letter case: a skipped question
    earns nothing, because no expected answer is "skip".  The history
    gets six entries, a user entry and a bot entry for each question; the
    lines after the third are left unread and no file is touched. *)
Theorem quiz_counts_right_answers clock (st : Session.state)
    (l1 l2 l3 : string) (rest : list string) :
  Session.stdin st = l1 :: l2 :: l3 :: rest ->
  let score := marks [l1; l2; l3] Session.QUIZ_QUESTIONS in
  let after := snd (Session.run_quiz clock st) in
  fst (Session.run_quiz clock st) = inl (score, 3)
  /\ score <= 3
  /\ (exists added,
        Session.history after = (Session.history st ++ added)%list
        /\ map (field "sender") added
           = (user_then_bot ++ user_then_bot ++ user_then_bot)%list)
  /\ Session.stdin after = rest
  /\ Session.files after = Session.files st.
Proof.
  intros Hin score after.
  destruct (ask_all clock Session.QUIZ_QUESTIONS eq_refl [l1; l2; l3] 1 0 st rest
              eq_refl Hin) as (added & H1 & H2 & H3 & H4 & _ & H6).
  unfold after, Session.run_quiz, Session.and_then.
  destruct (Session.ask clock 1 Session.QUIZ_QUESTIONS 0 st) as [[n | e] st'];
    [| discriminate H1].
  cbn [fst snd] in *. injection H1 as ->.
  split; [reflexivity |].
  split; [exact (marks_bound [l1; l2; l3] Session.QUIZ_QUESTIONS) |].
  split; [exists added; split; [exact H2 | exact H3] |].
  split; [exact H4 | exact H6].
Qed.

Definition quiet_clock (n : nat) : string := Session.decimal n.

Definition three_answers : Session.state :=
  {| Session.history := [];
     Session.stdin := [" Skip"; "PYTHON "; "2023"; "bye"];
     Session.ticks := 0;
     Session.files := [] |}.

Lemma quiz_counts_right_answers_witness :
  fst (Session.run_quiz quiet_clock three_answers) = inl (1, 3)
  /\ 1 <= 3
  /\ (exists added,
        Session.history (snd (Session.run_quiz quiet_clock three_answers))
        = ([] ++ added)%list
        /\ map (field "sender") added
           = (user_then_bot ++ user_then_bot ++ user_then_bot)%list)
  /\ Session.stdin (snd (Session.run_quiz quiet_clock three_answers)) = ["bye"]
  /\ Session.files (snd (Session.run_quiz quiet_clock three_answers)) = [].
Proof.
  exact (quiz_counts_right_answers quiet_clock three_answers
           " Skip" "PYTHON " "2023" ["bye"] eq_refl).
Defined.

(** X13.  When the input ends before the third answer, the quiz raises
    EOFError and returns no score; the two entries of every question
    answered until then stay in the history. *)
Theorem quiz_cut_short clock (st : Session.state) :
  List.length (Session.stdin st) < 3 ->
  fst (Session.run_quiz clock st) = inr Session.EOFError
  /\ exists added,
       Session.history (snd (Session.run_quiz clock st))
       = (Session.history st ++ added)%list
       /\ List.length added = 2 * List.length (Session.stdin st).
Proof.
  intro Hlen.
  destruct (ask_short clock Session.QUIZ_QUESTIONS (Session.stdin st) 1 0 st
              Hlen eq_refl) as (added & H1 & H2 & H3 & _).
  unfold Session.run_quiz, Session.and_then.
  destruct (Session.ask clock 1 Session.QUIZ_QUESTIONS 0 st) as [[n | e] st'];
    [discriminate H1 |].
  cbn [fst snd] in *. injection H1 as ->.
  split; [reflexivity |]. exists added. split; assumption.
Qed.

Definition one_answer : Session.state :=
  {| Session.history := [];
     Session.stdin := ["4"];
     Session.ticks := 0;
     Session.files := [] |}.

Lemma quiz_cut_short_witness :
  fst (Session.run_quiz quiet_clock one_answer) = inr Session.EOFError
  /\ exists added,
       Session.history (snd (Session.run_quiz quiet_clock one_answer))
       = ([] ++ added)%list
       /\ List.length added = 2 * 1.
Proof.
  apply (quiz_cut_short quiet_clock one_answer). simpl. lia.
Defined.

(** ** The command loop *)

Lemma lstrip_head (s : string) :
  lstrip s = "" \/ head_is (fun c => negb (isspace c)) (lstrip s) = true.
Proof.
  induction s as [| c r IH]; [left; reflexivity |].
  simpl. destruct (isspace c) eqn:Ec; [exact IH |].
  right. simpl. rewrite Ec. reflexivity.
Qed.

Lemma lstrip_fixed (s : string) :
  head_is (fun c => negb (isspace c)) s = true -> lstrip s = s.
Proof.
  destruct s as [| c r]; [discriminate |]. simpl.
  intro H. apply negb_true_iff in H. rewrite H. reflexivity.
Qed.

Lemma rstrip_head (s : string) :
  head_is (fun c => negb (isspace c)) s = true ->
  head_is (fun c => negb (isspace c)) (rstrip s) = true.
Proof.
  destruct s as [| c r]; [discriminate |]. cbn [rstrip head_is].
  intro H. destruct (rstrip r).
  - apply negb_true_iff in H. rewrite H. simpl. rewrite H. reflexivity.
  - exact H.
Qed.

Lemma strip_idem (s : string) : strip (strip s) = strip s.
Proof.
  unfold strip. destruct (lstrip_head s) as [E | H].
  - rewrite E. reflexivity.
  - rewrite (lstrip_fixed _ (rstrip_head _ H)). apply rstrip_idem.
Qed.

Lemma first_other_all (items : list Session.json) :
  forallb Session.is_dict items = true -> Session.first_other items = None.
Proof.
  induction items as [| item rest IH]; [reflexivity |].
  simpl. intro H. apply andb_prop in H as [Hi Hr]. rewrite Hi. exact (IH Hr).
Qed.

Lemma forallb_skipn {A : Type} (p : A -> bool) (n : nat) (items : list A) :
  forallb p items = true -> forallb p (skipn n items) = true.
Proof.
  revert items. induction n as [| n IH]; intros items H; [exact H |].
  destruct items as [| x rest]; [reflexivity |].
  simpl in H. apply andb_prop in H as [_ H]. exact (IH rest H).
Qed.

(** A value that is a list of dicts, such as [save_history] writes. *)
Definition list_of_dicts (value : Session.json) : bool :=
  match value with
  | Session.JList items => forallb Session.is_dict items
  | _ => false
  end.

Lemma items_of_list_of_dicts (value : Session.json) :
  list_of_dicts value = true ->
  exists items, Session.items_of value = Some items
                /\ forallb Session.is_dict items = true.
Proof.
  destruct value; try discriminate. intro H. eexists. split; [reflexivity | exact H].
Qed.

(** The line is the command that clears the history. *)
Definition clears (line : string) : bool :=
  (lower (strip line) =? "/clear")%string.

(** The state right after [save_history(history)]. *)
Definition saved (st : Session.state) : Prop :=
  exists failure earlier,
    Session.files st
    = Session.Wrote Session.LOG_FILENAME (Session.history st) failure :: earlier.

(** Every entry of the history is a dict. *)
Definition well_formed (st : Session.state) : Prop :=
  forallb Session.is_dict (Session.history st) = true.

Section Loop.

Import Session.

Variable rt : runtime.
Variable clock : nat -> string.
Variable dice : nat -> nat.
Variable wording : nat -> response -> string.
Variable write_file : nat -> string -> list json -> option string.
Variable read_file : nat -> string -> read_result.

(** Every read of the log file that succeeds gives a list of dicts. *)
Definition sound_reads : Prop :=
  forall n value, read_file n LOG_FILENAME = Data value ->
                  list_of_dicts value = true.

Local Notation "'turn_'" := (turn rt clock dice wording write_file read_file).
Local Notation "'while_true_'" :=
  (while_true rt clock dice wording write_file read_file).
Local Notation "'run_'" := (main_from rt clock dice wording write_file read_file).

(** What one turn does. *)
Definition turn_effect (st : state) (r : control + error) (st' : state) : Prop :=
  (exists consumed,
      stdin st = (consumed ++ stdin st')%list
      /\ (forall c, r = inl c -> consumed <> []))
  /\ (r = inl Leave -> saved st')
  /\ (match stdin st with
      | line :: _ => clears line = false
      | [] => True
      end -> exists added, history st' = (history st ++ added)%list)
  /\ (sound_reads -> well_formed st ->
      well_formed st' /\ forall e, r = inr e -> e = EOFError).

Ltac run_io H :=
  cbv [slash_command unknown_command chat and_then log timestamp append extend
       get_history set_history pure throw input save_history load_history
       record_file_op file_ops_so_far run_quiz
       history stdin ticks files fst snd] in H.

Ltac dicts :=
  unfold well_formed in *; cbn [history] in *;
  rewrite ?forallb_app; cbn [forallb is_dict entry andb];
  repeat match goal with
         | H : forallb is_dict _ = true |- _ => rewrite H
         end;
  reflexivity.

(** A turn whose outcome and final state are known. *)
Ltac leaf line :=
  let H := fresh "H" in
  split;
  [ exists [line]; split; [reflexivity | intros; discriminate]
  | split;
    [ intro H; first [discriminate H | eexists; eexists; reflexivity]
    | split;
      [ intros _; cbn [history]; rewrite <- ?app_assoc; eexists; reflexivity
      | intros _ H; split; [dicts | intros ? H'; discriminate] ] ] ].

Lemma turn_does (st : state) :
  turn_effect st (fst (turn_ st)) (snd (turn_ st)).
Proof.
  destruct st as [h inp t fs].
  destruct (turn_ {| history := h; stdin := inp; ticks := t; files := fs |})
    as [r st'] eqn:Ht.
  cbn [fst snd]. unfold turn in Ht.
  destruct inp as [| line rest]; run_io Ht.
  { injection Ht as <- <-. split; [exists []; split; [reflexivity | discriminate] |].
    split; [discriminate |]. split; [intros _; exists []; symmetry; apply app_nil_r |].
    intros _ Hwf. split; [exact Hwf |]. intros e He. injection He as <-. reflexivity. }
  destruct (strip line =? "")%string.
  { injection Ht as <- <-. leaf line. }
  destruct (startswith "/" (strip line)).
  - rewrite strip_idem in Ht. unfold turn_effect. cbn [stdin]. unfold clears.
    destruct (lower (strip line) =? "/help")%string.
    { injection Ht as <- <-. leaf line. }
    destruct (lower (strip line) =? "/history")%string.
    { destruct (first_other (last_n 40 (h ++ [entry (clock t) "user"
                                                  (JStr (strip line))])))
        as [item |] eqn:Ho; injection Ht as <- <-.
      - split; [exists [line]; split; [reflexivity | intros; discriminate] |].
        split; [discriminate |].
        split; [intros _; eexists; reflexivity |].
        intros _ Hwf. exfalso. unfold last_n in Ho.
        rewrite first_other_all in Ho; [discriminate |].
        apply forallb_skipn. dicts.
      - leaf line. }
    destruct (lower (strip line) =? "/save")%string.
    { destruct (write_file (List.length fs) LOG_FILENAME _);
        injection Ht as <- <-; leaf line. }
    destruct (lower (strip line) =? "/load")%string.
    { destruct (read_file (List.length fs) LOG_FILENAME) as [value | | msg] eqn:Hr;
        run_io Ht.
      - destruct (items_of value) as [items |] eqn:Hi; run_io Ht;
          injection Ht as <- <-.
        + split; [exists [line]; split; [reflexivity | intros; discriminate] |].
          split; [discriminate |].
          split; [intros _; cbn [history]; rewrite <- ?app_assoc;
                  eexists; reflexivity |].
          intros Hreads Hwf.
          destruct (items_of_list_of_dicts value (Hreads _ _ Hr))
            as (items' & Hi' & Hd).
          rewrite Hi in Hi'. injection Hi' as <-.
          split; [dicts | intros e He; discriminate He].
        + split; [exists [line]; split; [reflexivity | intros; discriminate] |].
          split; [discriminate |].
          split; [intros _; cbn [history]; eexists; reflexivity |].
          intros Hreads Hwf. exfalso.
          destruct (items_of_list_of_dicts value (Hreads _ _ Hr))
            as (items' & Hi' & _).
          rewrite Hi in Hi'. discriminate Hi'.
      - injection Ht as <- <-. leaf line.
      - injection Ht as <- <-. leaf line. }
    destruct (lower (strip line) =? "/clear")%string.
    { injection Ht as <- <-.
      split; [exists [line]; split; [reflexivity | intros; discriminate] |].
      split; [discriminate |]. split; [discriminate |].
      intros _ _. split; [reflexivity | intros e He; discriminate He]. }
    destruct (lower (strip line) =? "/quiz")%string.
    { match type of Ht with
      | context [ask clock ?i ?qs ?sc ?s] =>
          destruct (ask_effect clock qs i sc s)
            as (consumed & added & H1 & H2 & H3 & H4 & H5);
          destruct (ask clock i qs sc s) as [[score | e] st3]
      end; cbn [fst snd history stdin files] in *; injection Ht as <- <-.
      - destruct st3 as [h3 inp3 t3 fs3]. cbn [history stdin files] in *. subst.
        split; [exists (line :: consumed); split; [reflexivity | intros; discriminate] |].
        split; [discriminate |].
        split; [intros _; cbn [history]; rewrite <- ?app_assoc;
                eexists; reflexivity |].
        intros _ Hwf. split; [dicts | intros e He; discriminate He].
      - destruct st3 as [h3 inp3 t3 fs3]. cbn [history stdin files] in *. subst.
        split; [exists (line :: consumed); split; [reflexivity | intros; discriminate] |].
        split; [discriminate |].
        split; [intros _; cbn [history]; rewrite <- ?app_assoc;
                eexists; reflexivity |].
        intros _ Hwf. split; [dicts |].
        intros e' He. injection He as <-. apply H5. reflexivity. }
    destruct (lower (strip line) =? "/exit")%string.
    { destruct (write_file (List.length fs) LOG_FILENAME _);
        injection Ht as <- <-; leaf line. }
    injection Ht as <- <-. leaf line.
  - unfold chatbot_reply in Ht. cbn [ticks] in Ht.
    destruct (chatbot_response_returns rt (dice (S t)) (strip line) module_globals)
      as [reply Hreply].
    rewrite Hreply in Ht. run_io Ht.
    destruct (search_words _ (lower (strip line)));
      [destruct (write_file (List.length fs) LOG_FILENAME _) |];
      injection Ht as <- <-; leaf line.
Qed.

Lemma no_clear_later (consumed rest : list string) :
  Forall (fun line => clears line = false) (consumed ++ rest)%list ->
  Forall (fun line => clears line = false) rest.
Proof.
  induction consumed as [| line consumed IH]; intro H; [exact H |].
  inversion H. apply IH. assumption.
Qed.

(** What the loop does when it has turns enough for the lines left. *)
Lemma loop_does (fuel : nat) :
  forall st : state,
    List.length (stdin st) < fuel ->
    fst (while_true_ fuel st) <> inl None
    /\ (forall u, fst (while_true_ fuel st) = inl (Some u) ->
                  saved (snd (while_true_ fuel st)))
    /\ (Forall (fun line => clears line = false) (stdin st) ->
        exists added,
          history (snd (while_true_ fuel st)) = (history st ++ added)%list)
    /\ (sound_reads -> well_formed st ->
        well_formed (snd (while_true_ fuel st))
        /\ forall e, fst (while_true_ fuel st) = inr e -> e = EOFError).
Proof.
  induction fuel as [| fuel IH]; intros st Hlen; [lia |].
  cbn [while_true]. unfold and_then.
  destruct (turn_does st) as ((consumed & Hin & Hne) & Hleave & Hgrow & Hwf).
  destruct (turn_ st) as [[[|] | e] st1]; cbn [fst snd] in *.
  - assert (Hlen1 : List.length (stdin st1) < fuel).
    { specialize (Hne Again eq_refl). rewrite Hin, length_app in Hlen.
      destruct consumed; [contradiction | simpl in Hlen; lia]. }
    destruct (IH st1 Hlen1) as (H1 & H2 & H3 & H4).
    split; [exact H1 |]. split; [exact H2 |]. split.
    + intro Hall.
      assert (Hhead : match stdin st with
                      | line :: _ => clears line = false
                      | [] => True
                      end)
        by (destruct Hall; [exact I | assumption]).
      destruct (Hgrow Hhead) as [added1 Ha1].
      rewrite Hin in Hall. apply no_clear_later in Hall.
      destruct (H3 Hall) as [added2 Ha2].
      exists (added1 ++ added2)%list. rewrite Ha2, Ha1, app_assoc. reflexivity.
    + intros Hreads Hw. destruct (Hwf Hreads Hw) as [Hw1 _].
      exact (H4 Hreads Hw1).
  - split; [discriminate |]. split; [intros u _; exact (Hleave eq_refl) |].
    split.
    + intro Hall. apply Hgrow. destruct Hall; [exact I | assumption].
    + intros Hreads Hw. destruct (Hwf Hreads Hw) as [Hw1 _].
      split; [exact Hw1 | discriminate].
  - split; [discriminate |]. split; [discriminate |]. split.
    + intro Hall. apply Hgrow. destruct Hall; [exact I | assumption].
    + intros Hreads Hw. destruct (Hwf Hreads Hw) as [Hw1 He].
      split; [exact Hw1 |].
      intros e0 H0. injection H0 as <-. exact (He e eq_refl).
Qed.

(** The state after the [save_history] of the handler. *)
Lemma save_history_saves (st : state) :
  saved (snd (save_history write_file (history st) LOG_FILENAME st))
  /\ history (snd (save_history write_file (history st) LOG_FILENAME st))
     = history st.
Proof.
  unfold save_history, and_then, file_ops_so_far, record_file_op, pure.
  destruct (write_file (List.length (files st)) LOG_FILENAME (history st));
    (split; [eexists; eexists; reflexivity | reflexivity]).
Qed.

(** How a run ends, in terms of the loop. *)
Lemma run_does (fuel : nat) (st : state) :
  List.length (stdin st) < fuel ->
  exists final,
    run_ fuel st = Some final
    /\ saved final
    /\ history final = history (snd (while_true_ fuel st)).
Proof.
  intro Hlen. destruct (loop_does fuel st Hlen) as (Hnone & Hsaved & _).
  unfold main_from.
  destruct (while_true_ fuel st) as [[[u |] | e] st1]; cbn [fst snd] in *.
  - exists st1. split; [reflexivity |]. split; [exact (Hsaved u eq_refl) | reflexivity].
  - contradiction.
  - eexists. split; [reflexivity |]. apply save_history_saves.
Qed.

End Loop.

(** X14.  Every session ends, and ends with a save.  Whatever the lines
    typed and whatever the clock, the draws and the file system answer,
    [main] comes to an end once the input does: by [/exit], by a farewell
    word, or in the handler of an exception, the end of the input among
    them.  In each case the last file operation of the program is
    [save_history] on the whole history as it stands at the end. *)
Theorem session_ends_with_a_save rt clock dice wording write_file read_file
    (lines : list string) :
  exists final failure earlier,
    Session.main rt clock dice wording write_file read_file lines = Some final
    /\ Session.files final
       = Session.Wrote Session.LOG_FILENAME (Session.history final) failure
         :: earlier.
Proof.
  unfold Session.main.
  match goal with
  | |- context [Session.main_from _ _ _ _ _ _ ?fuel ?st] =>
      destruct (run_does rt clock dice wording write_file read_file fuel st)
        as (final & Hrun & (failure & earlier & Hsaved) & _)
  end; [simpl; lia |].
  exists final, failure, earlier. split; assumption.
Qed.

Lemma startswith_slash_lower (s : string) :
  startswith "/" (lower s) = startswith "/" s.
Proof.
  destruct s as [| c r]; [reflexivity |]. simpl.
  rewrite !andb_true_r. each_char c.
Qed.

(** X15.  The history only grows, unless it is cleared.  A turn on the
    line [/clear], in any letter case and with white space around it,
    leaves one entry in the history: the confirmation of the bot, and not
    the line of the user.  A run over lines none of which is [/clear]
    ends with a history that starts with the history it began with:
    commands and replies add entries, [/load] adds those of the file, and
    nothing is taken away or reordered. *)
Theorem history_only_grows rt clock dice wording write_file read_file :
  (forall (line : string) (st : Session.state) (rest : list string),
     Session.stdin st = line :: rest ->
     clears line = true ->
     Session.history
       (snd (Session.turn rt clock dice wording write_file read_file st))
     = [Session.entry (clock (S (Session.ticks st))) "bot"
          (Session.JStr "In-memory history cleared.")])
  /\ (forall (fuel : nat) (st : Session.state),
        Forall (fun line => clears line = false) (Session.stdin st) ->
        List.length (Session.stdin st) < fuel ->
        exists final added,
          Session.main_from rt clock dice wording write_file read_file fuel st
          = Some final
          /\ Session.history final = (Session.history st ++ added)%list).
Proof.
  split.
  - intros line [h inp t fs] rest Hin Hclear. simpl in Hin. subst inp.
    unfold clears in Hclear. apply String.eqb_eq in Hclear.
    assert (Hslash : startswith "/" (strip line) = true)
      by (rewrite <- startswith_slash_lower, Hclear; reflexivity).
    assert (Hne : (strip line =? "")%string = false).
    { destruct (strip line); [discriminate Hslash | reflexivity]. }
    unfold Session.turn, Session.and_then, Session.input. cbn [Session.stdin].
    rewrite Hne. unfold Session.log at 1, Session.and_then.
    cbn [Session.timestamp Session.append Session.extend Session.and_then
         Session.get_history Session.set_history].
    cbv [Session.timestamp Session.append Session.extend Session.and_then
         Session.get_history Session.set_history].
    rewrite Hslash. unfold Session.slash_command.
    rewrite strip_idem, Hclear. reflexivity.
  - intros fuel st Hall Hlen.
    destruct (run_does rt clock dice wording write_file read_file fuel st Hlen)
      as (final & Hrun & _ & Hh).
    destruct (loop_does rt clock dice wording write_file read_file fuel st Hlen)
      as (_ & _ & Hgrow & _).
    destruct (Hgrow Hall) as [added Ha].
    exists final, added. split; [exact Hrun | rewrite Hh; exact Ha].
Qed.

(** An outside that is quiet: the clock counts, every draw is the first
    choice, every write succeeds and there is no log file. *)
Definition quiet_wording (n : nat) (r : response) : string := "...".

Definition earlier_talk : Session.state :=
  {| Session.history :=
       [Session.entry "0" "user" (Session.JStr "hi")];
     Session.stdin := ["calc 2+2"; "/save"; "see you"; "never read"];
     Session.ticks := 1;
     Session.files := [] |}.

Lemma history_only_grows_witness :
  exists final added,
    Session.main_from no_libm quiet_clock (fun _ => 0) quiet_wording
      (fun _ _ _ => None) (fun _ _ => Session.NotFound) 5 earlier_talk
    = Some final
    /\ Session.history final = (Session.history earlier_talk ++ added)%list.
Proof.
  apply (proj2 (history_only_grows no_libm quiet_clock (fun _ => 0) quiet_wording
                  (fun _ _ _ => None) (fun _ _ => Session.NotFound))).
  - repeat constructor.
  - simpl. lia.
Defined.

(** X16.  When every successful read of the log file gives a list of
    dicts, as [save_history] writes it, the history stays a list of dicts
    and the loop ends in one of three ways only: by [/exit], by a farewell
    word, or by the end of the input.  The condition is needed: a log
    file that holds a number makes [/load] raise, and that ends the
    session. *)
Theorem loop_ends_in_three_ways rt clock dice wording write_file read_file :
  fst (Session.while_true no_libm quiet_clock (fun _ => 0) quiet_wording
         (fun _ _ _ => None) (fun _ _ => Session.Data (Session.JInt 5)) 3
         {| Session.history := []; Session.stdin := ["/load"; "hello"];
            Session.ticks := 0; Session.files := [] |})
  = inr (Session.NotIterable (Session.JInt 5))
  /\ (sound_reads read_file ->
      forall (fuel : nat) (st : Session.state),
        well_formed st ->
        List.length (Session.stdin st) < fuel ->
        let outcome :=
          Session.while_true rt clock dice wording write_file read_file fuel st in
        (fst outcome = inl (Some tt) \/ fst outcome = inr Session.EOFError)
        /\ well_formed (snd outcome)).
Proof.
  split; [vm_compute; reflexivity |].
  intros Hreads fuel st Hw Hlen outcome.
  destruct (loop_does rt clock dice wording write_file read_file fuel st Hlen)
    as (Hnone & _ & _ & Hwf).
  destruct (Hwf Hreads Hw) as [Hw' He]. split; [| exact Hw'].
  fold outcome in Hnone, He.
  destruct (fst outcome) as [[[] |] | e].
  - left. reflexivity.
  - contradiction.
  - right. rewrite (He e eq_refl). reflexivity.
Qed.

Lemma loop_ends_in_three_ways_witness :
  let outcome :=
    Session.while_true no_libm quiet_clock (fun _ => 0) quiet_wording
      (fun _ _ _ => None)
      (fun _ _ => Session.Data (Session.JList (Session.history earlier_talk)))
      5 earlier_talk in
  (fst outcome = inl (Some tt) \/ fst outcome = inr Session.EOFError)
  /\ well_formed (snd outcome).
Proof.
  apply (proj2 (loop_ends_in_three_ways no_libm quiet_clock (fun _ => 0)
                  quiet_wording (fun _ _ _ => None)
                  (fun _ _ => Session.Data
                                (Session.JList (Session.history earlier_talk))))).
  - intros n value H. injection H as <-. reflexivity.
  - reflexivity.
  - simpl. lia.
Defined.

(** X17.  The help text names every command [main] knows: a line that
    starts with [/] and is not found in the text of [show_help], in lower
    case and trimmed, is answered "Unknown command. ..." and does nothing
    else. *)
Theorem help_lists_every_command clock write_file read_file (user_input : string) :
  contains (lower (strip user_input)) Session.show_help = false ->
  Session.slash_command clock write_file read_file user_input
  = Session.unknown_command clock.
Proof.
  intro H. unfold Session.slash_command.
  repeat match goal with
         | |- context [(lower (strip user_input) =? ?c)%string] =>
             destruct (String.eqb_spec (lower (strip user_input)) c) as [E | _];
             [rewrite E in H; vm_compute in H; discriminate H |]
         end.
  reflexivity.
Qed.

Lemma help_lists_every_command_witness :
  Session.slash_command quiet_clock (fun _ _ _ => None)
    (fun _ _ => Session.NotFound) "/Quit"
  = Session.unknown_command quiet_clock.
Proof.
  apply (help_lists_every_command quiet_clock (fun _ _ _ => None)
           (fun _ _ => Session.NotFound) "/Quit").
  vm_compute. reflexivity.
Defined.

(** X18.  After [/quiz] the next three lines are answers and nothing
    else: whatever they say, be it [/exit] or a farewell, the turn reads
    them as answers, records nine entries in all (the command, "Starting
    quiz.", two for each question, and the score) and goes on with the
    loop. *)
Theorem quiz_reads_its_answers rt clock dice wording write_file read_file
    (st : Session.state) (line l1 l2 l3 : string) (rest : list string) :
  Session.stdin st = line :: l1 :: l2 :: l3 :: rest ->
  lower (strip line) = "/quiz" ->
  let after :=
    snd (Session.turn rt clock dice wording write_file read_file st) in
  fst (Session.turn rt clock dice wording write_file read_file st)
  = inl Session.Again
  /\ Session.stdin after = rest
  /\ Session.files after = Session.files st
  /\ exists added,
       Session.history after = (Session.history st ++ added)%list
       /\ List.length added = 9
       /\ last added Session.JNull
          = Session.entry (clock (8 + Session.ticks st)) "bot"
              (Session.JStr ("Quiz finished. Score: "
                             ++ Session.decimal
                                  (marks [l1; l2; l3] Session.QUIZ_QUESTIONS)
                             ++ "/3")).
Proof.
  intros Hin Hquiz.
  assert (Hslash : startswith "/" (strip line) = true)
    by (rewrite <- startswith_slash_lower, Hquiz; reflexivity).
  assert (Hne : (strip line =? "")%string = false).
  { destruct (strip line); [discriminate Hslash | reflexivity]. }
  destruct st as [h inp t fs]. simpl in Hin. subst inp.
  unfold Session.turn, Session.and_then, Session.input. cbn [Session.stdin].
  rewrite Hne.
  cbv [Session.log Session.timestamp Session.append Session.extend
       Session.and_then Session.get_history Session.set_history
       Session.history Session.stdin Session.ticks Session.files].
  rewrite Hslash. unfold Session.slash_command. rewrite strip_idem, Hquiz.
  cbv [String.eqb Ascii.eqb Bool.eqb].
  cbv [Session.log Session.timestamp Session.append Session.extend
       Session.and_then Session.get_history Session.set_history Session.run_quiz
       Session.pure Session.history Session.stdin Session.ticks Session.files].
  match goal with
  | |- context [Session.ask clock ?i ?qs ?sc ?s] =>
      destruct (ask_all clock qs eq_refl [l1; l2; l3] i sc s rest eq_refl eq_refl)
        as (added & H1 & H2 & H3 & H4 & H5 & H6);
      destruct (Session.ask clock i qs sc s) as [[score | e] st3];
      [| discriminate H1]
  end.
  cbn [fst snd] in *. injection H1 as ->.
  destruct st3 as [h3 inp3 t3 fs3].
  cbn [Session.history Session.stdin Session.ticks Session.files] in *. subst.
  split; [reflexivity |]. split; [reflexivity |]. split; [reflexivity |].
  eexists. rewrite <- !app_assoc. split; [reflexivity |].
  apply (f_equal (@List.length _)) in H3. rewrite length_map in H3.
  split.
  - rewrite !length_app, H3. reflexivity.
  - rewrite !app_assoc. rewrite last_last. reflexivity.
Qed.

Definition quiz_then_more : Session.state :=
  {| Session.history := [];
     Session.stdin := [" /QUIZ "; "/exit"; "bye"; "Any non-leap year"; "hello"];
     Session.ticks := 0;
     Session.files := [] |}.

Lemma quiz_reads_its_answers_witness :
  fst (Session.turn no_libm quiet_clock (fun _ => 0) quiet_wording
         (fun _ _ _ => None) (fun _ _ => Session.NotFound) quiz_then_more)
  = inl Session.Again
  /\ Session.stdin
       (snd (Session.turn no_libm quiet_clock (fun _ => 0) quiet_wording
               (fun _ _ _ => None) (fun _ _ => Session.NotFound) quiz_then_more))
     = ["hello"]
  /\ Session.files
       (snd (Session.turn no_libm quiet_clock (fun _ => 0) quiet_wording
               (fun _ _ _ => None) (fun _ _ => Session.NotFound) quiz_then_more))
     = []
  /\ exists added,
       Session.history
         (snd (Session.turn no_libm quiet_clock (fun _ => 0) quiet_wording
                 (fun _ _ _ => None) (fun _ _ => Session.NotFound)
                 quiz_then_more))
       = ([] ++ added)%list
       /\ List.length added = 9
       /\ last added Session.JNull
          = Session.entry (quiet_clock 8) "bot"
              (Session.JStr ("Quiz finished. Score: " ++ Session.decimal 1 ++ "/3")).
Proof.
  exact (quiz_reads_its_answers no_libm quiet_clock (fun _ => 0) quiet_wording
           (fun _ _ _ => None) (fun _ _ => Session.NotFound) quiz_then_more
           " /QUIZ " "/exit" "bye" "Any non-leap year" ["hello"]
           eq_refl eq_refl).
Defined.

(** ** The reply to a slash command *)

Lemma earlier_rules_slash draw (l : string) :
  earlier_rules draw l = Some SlashHint -> startswith "/" l = true.
Proof.
  unfold earlier_rules. intro H.
  destruct (startswith "/" l); [reflexivity |].
  rule_by_rule H; discriminate H.
Qed.

Lemma later_rules_not_slash draw (l : string) : later_rules draw l <> SlashHint.
Proof.
  unfold later_rules.
  repeat match goal with
         | |- context [if ?c then _ else _] => destruct c
         | |- context [match ?x with Some _ => _ | None => _ end] => destruct x
         end; discriminate.
Qed.

(** X19.  [chatbot_response] tells the user to use the commands directly
    exactly when the trimmed input starts with [/].  [main] takes every
    such line as a command before it asks for a reply, and passes on
    trimmed lines only, so no reply that [main] gets is this one. *)
Theorem slash_hint_only_for_slash_lines rt draw (input : string) (g : globals) :
  (fst (chatbot_response rt draw input g) = Ok SlashHint
   <-> startswith "/" (strip input) = true)
  /\ (startswith "/" (strip input) = false ->
      fst (chatbot_response rt draw (strip input) g) <> Ok SlashHint).
Proof.
  assert (Hiff : forall s,
             fst (chatbot_response rt draw s g) = Ok SlashHint
             <-> startswith "/" (strip s) = true).
  { intro s. unfold chatbot_response. rewrite <- startswith_slash_lower. split.
    - destruct (earlier_rules draw (lower (strip s))) as [r |] eqn:Er.
      + simpl. intro H. injection H as ->. exact (earlier_rules_slash draw _ Er).
      + unfold calculator_rules.
        destruct (calc_match (lower (strip s))) as [e |].
        * destruct (safe_eval_expr rt e g) as [[v | x] g']; discriminate.
        * destruct (math_fullmatch (replace_caret (lower (strip s))));
            [destruct (safe_eval_expr rt _ g) as [[v | x] g'] |]; simpl;
            intro H; injection H as H;
            first [discriminate H | exact (False_ind _ (later_rules_not_slash draw _ H))].
    - intro H. unfold earlier_rules. rewrite H. reflexivity. }
  split; [apply Hiff |].
  intros H Hr. apply Hiff in Hr. rewrite strip_idem, H in Hr. discriminate Hr.
Qed.

Lemma slash_hint_only_for_slash_lines_witness :
  fst (chatbot_response no_libm 0 (strip " 2/1 ") module_globals) <> Ok SlashHint.
Proof.
  apply (proj2 (slash_hint_only_for_slash_lines no_libm 0 " 2/1 " module_globals)).
  reflexivity.
Defined.

(** ** Reading back a result *)




















